(** * PageRank (pagerank.py): a shallow embedding and its properties

    The Python program computes PageRank in two ways: a random-walk
    sampler ([sample_pagerank]) and an iterative solver
    ([iterate_pagerank]), both built on a per-page transition
    distribution ([transition_model]).

    Modelling choices.
    - Python floats are modelled by exact rationals ([Q]); equalities
      between computed numbers are stated with [==] ([Qeq]).  Rounding is
      therefore out of that model: a statement about [Q] values is a
      statement "in exact arithmetic".  Where rounding decides what the
      program does, in the selection loop of the sampler, the same
      code is also embedded over binary64 floats (the definitions whose
      names end in [_f]).
    - Python [int]s are [Z]; [len] returns a [Z].
    - A [dict] is an association list in insertion order (Python dicts
      iterate in insertion order); assigning to an existing key keeps its
      position, assigning to a new key appends.
    - A [set] of page names is a list of names in its (fixed but
      arbitrary) iteration order; a well-formed set has no duplicates.
    - Exceptions are values of [exn]; a computation that may raise
      returns a [result].
    - The ambient random source is an explicit argument: the raw number
      behind [random.choice] and the stream of [random.random()] draws. *)

From Stdlib Require Import String List Bool ZArith QArith Qabs Lia Lqa.
From Stdlib Require Import Permutation.
From Stdlib Require Floats Uint63.
Import ListNotations.

Local Open Scope string_scope.
Local Open Scope list_scope.
Local Open Scope Q_scope.

(** ** Exceptions and the error monad *)

Inductive exn : Type :=
| KeyError
| IndexError
| ZeroDivisionError
| UnboundLocalError.

Inductive result (A : Type) : Type :=
| Ok (a : A)
| Raise (e : exn).

Arguments Ok {A} a.
Arguments Raise {A} e.

Definition bind {A B : Type} (m : result A) (f : A -> result B) : result B :=
  match m with
  | Ok a => f a
  | Raise e => Raise e
  end.

Notation "x <- m ;; k" := (bind m (fun x => k))
  (at level 61, m at next level, right associativity).

(** [for x in xs: body] where the body may raise. *)
Fixpoint for_each {A S : Type} (xs : list A) (s : S)
         (body : S -> A -> result S) : result S :=
  match xs with
  | [] => Ok s
  | x :: xs' => s' <- body s x ;; for_each xs' s' body
  end.

(** ** Python sets of page names *)

Definition pyset : Type := list string.

Definition in_set (k : string) (s : pyset) : bool :=
  existsb (String.eqb k) s.

(** [s.add(x)] *)
Definition set_add (x : string) (s : pyset) : pyset :=
  if in_set x s then s else s ++ [x].

(** ** Python dicts keyed by page names *)

Module Dict.

Definition t (V : Type) : Type := list (string * V).

Fixpoint get {V : Type} (k : string) (d : t V) : option V :=
  match d with
  | [] => None
  | (k', v) :: d' => if String.eqb k k' then Some v else get k d'
  end.

(** [k in d] *)
Definition mem {V : Type} (k : string) (d : t V) : bool :=
  match get k d with
  | Some _ => true
  | None => false
  end.

(** [d[k]] *)
Definition getitem {V : Type} (k : string) (d : t V) : result V :=
  match get k d with
  | Some v => Ok v
  | None => Raise KeyError
  end.

(** [d[k] = v] *)
Fixpoint set {V : Type} (k : string) (v : V) (d : t V) : t V :=
  match d with
  | [] => [(k, v)]
  | (k', v') :: d' =>
      if String.eqb k k' then (k', v) :: d' else (k', v') :: set k v d'
  end.

Definition keys {V : Type} (d : t V) : list string := map fst d.

Definition values {V : Type} (d : t V) : list V := map snd d.

(** [len(d)] *)
Definition len {V : Type} (d : t V) : Z := Z.of_nat (length d).

End Dict.

(** [len(s)] for a set *)
Definition set_len (s : pyset) : Z := Z.of_nat (length s).

(** ** Arithmetic *)

(** Python's true division [a / b]: raises on a zero divisor. *)
Definition true_div (a b : Q) : result Q :=
  if Qeq_bool b 0 then Raise ZeroDivisionError else Ok (a / b).

Definition Qsum (l : list Q) : Q := fold_right Qplus 0 l.

(** Two rank maps with the same keys in the same order and equal values. *)
Definition dict_eqv (a b : Dict.t Q) : Prop :=
  Forall2 (fun x y => fst x = fst y /\ snd x == snd y) a b.

(** ** The corpus *)

Definition Corpus : Type := Dict.t pyset.

(** What Python guarantees of a dict of sets: keys and set elements are
    unique. *)
Definition wf_corpus (corpus : Corpus) : Prop :=
  NoDup (Dict.keys corpus) /\ Forall (fun kv => NoDup (snd kv)) corpus.

(** The graph invariant established by [crawl]: every link points to a
    page of the corpus. *)
Definition closed_corpus (corpus : Corpus) : Prop :=
  Forall (fun kv => forall q, In q (snd kv) -> In q (Dict.keys corpus)) corpus.

(** ** transition_model *)

Definition transition_model (corpus : Corpus) (page : string)
           (damping_factor : Q) : result (Dict.t Q) :=
  linked_pages <- Dict.getitem page corpus ;;
  let corpus_length := Dict.len corpus in
  let linked_pages_length := set_len linked_pages in
  probabilities <-
    (if negb (linked_pages_length =? 0)%Z then
       a <- true_div 1 (inject_Z corpus_length) ;;
       b <- true_div 1 (inject_Z linked_pages_length) ;;
       Ok (a * (1 - damping_factor), b * damping_factor)
     else
       a <- true_div 1 (inject_Z corpus_length) ;;
       Ok (a, 0)) ;;
  let random_page_probability := fst probabilities in
  let linked_page_probability := snd probabilities in
  for_each (Dict.keys corpus) []
    (fun output key =>
       let output := Dict.set key random_page_probability output in
       if in_set key linked_pages then
         v <- Dict.getitem key output ;;
         Ok (Dict.set key (v + linked_page_probability) output)
       else Ok output).

(** The corpus of the concrete scenario. *)
Definition corpus_abc : Corpus :=
  [("A", ["B"; "C"]); ("B", ["C"]); ("C", ["B"])].

(** ** sample_pagerank *)

(** [random.choice(seq)], driven by the raw draw [c]: an empty sequence
    raises [IndexError], otherwise the element at index [c mod len(seq)]
    is returned. *)
Definition random_choice {A : Type} (c : nat) (seq : list A) : result A :=
  match seq with
  | [] => Raise IndexError
  | _ :: _ =>
      match nth_error seq (c mod length seq) with
      | Some x => Ok x
      | None => Raise IndexError
      end
  end.

(** [a < b] on numbers *)
Definition Qlt_bool (a b : Q) : bool := negb (Qle_bool b a).

(** The selection loop
    [for key in dist: prob_count += dist[key]; if rgn < prob_count: ...; break].
    [Some key] is the page chosen at the [break]; [None] is the loop
    running to its end without choosing. *)
Fixpoint select_next (dist : Dict.t Q) (ks : list string)
         (prob_count rgn : Q) : result (option string) :=
  match ks with
  | [] => Ok None
  | key :: ks' =>
      p <- Dict.getitem key dist ;;
      let prob_count := prob_count + p in
      if Qlt_bool rgn prob_count then Ok (Some key)
      else select_next dist ks' prob_count rgn
  end.

Record SampleState : Type := mkSampleState {
  current_page : string;
  pages_probabilities : Dict.t (Dict.t Q);
  pages_count : Dict.t Z
}.

(** One pass through the body of [for i in range(n)], with [rgn] the
    value drawn by [random.random()]. *)
Definition sample_step (corpus : Corpus) (damping_factor : Q) (rgn : Q)
           (st : SampleState) : result SampleState :=
  let cur := current_page st in
  counts <-
    (if Dict.mem cur (pages_count st) then
       v <- Dict.getitem cur (pages_count st) ;;
       Ok (Dict.set cur (v + 1)%Z (pages_count st))
     else Ok (Dict.set cur 1%Z (pages_count st))) ;;
  cached <-
    (if Dict.mem cur (pages_probabilities st) then
       v <- Dict.getitem cur (pages_probabilities st) ;;
       Ok (v, pages_probabilities st)
     else
       v <- transition_model corpus cur damping_factor ;;
       Ok (v, Dict.set cur v (pages_probabilities st))) ;;
  let current_page_probabilities := fst cached in
  chosen <- select_next current_page_probabilities
              (Dict.keys current_page_probabilities) 0 rgn ;;
  Ok {| current_page := match chosen with Some key => key | None => cur end;
        pages_probabilities := snd cached;
        pages_count := counts |}.

(** [range(n)]: empty when [n <= 0]. *)
Definition range (n : Z) : list nat := seq 0 (Z.to_nat n).

Definition sample_loop (corpus : Corpus) (damping_factor : Q)
           (rs : nat -> Q) (steps : list nat) (st : SampleState)
  : result SampleState :=
  for_each steps st (fun st i => sample_step corpus damping_factor (rs i) st).

Definition output_ranks_of (counts : Dict.t Z) (n : Z) : result (Dict.t Q) :=
  for_each (Dict.keys counts) []
    (fun output_ranks key =>
       v <- Dict.getitem key counts ;;
       q <- true_div (inject_Z v) (inject_Z n) ;;
       Ok (Dict.set key q output_ranks)).

(** [c] is the raw draw behind [random.choice], [rs i] the value of
    [random.random()] in iteration [i]. *)
Definition sample_pagerank (corpus : Corpus) (damping_factor : Q) (n : Z)
           (c : nat) (rs : nat -> Q) : result (Dict.t Q) :=
  start <- random_choice c (Dict.keys corpus) ;;
  st <- sample_loop corpus damping_factor rs (range n)
          {| current_page := start;
             pages_probabilities := [];
             pages_count := [] |} ;;
  output_ranks_of (pages_count st) n.

(** ** iterate_pagerank *)

(** [seq[i]] for a list and a non-negative index. *)
Definition list_index {A : Type} (l : list A) (i : Z) : result A :=
  if (i <? 0)%Z then Raise IndexError
  else match nth_error l (Z.to_nat i) with
       | Some x => Ok x
       | None => Raise IndexError
       end.

(** The setup loop: initial ranks and the reverse index
    [pages_that_mention_pages]. *)
Definition iterate_setup (corpus : Corpus) (starting_rank : Q)
  : result (Dict.t Q * Dict.t pyset) :=
  for_each (Dict.keys corpus) ([], [])
    (fun acc page =>
       let page_ranks := Dict.set page starting_rank (fst acc) in
       links <- Dict.getitem page corpus ;;
       mentions <-
         for_each links (snd acc)
           (fun pages_that_mention_pages referenced_page =>
              if Dict.mem referenced_page pages_that_mention_pages then
                s <- Dict.getitem referenced_page pages_that_mention_pages ;;
                Ok (Dict.set referenced_page (set_add page s)
                             pages_that_mention_pages)
              else
                Ok (Dict.set referenced_page [page] pages_that_mention_pages)) ;;
       Ok (page_ranks, mentions)).

(** The variables that live across iterations of [while True].  The
    loop variable [reference_page] of the inner [for] is function-local
    in Python, so it keeps its last value from one iteration of the
    [while] to the next; it is unbound ([None]) until the inner [for]
    has run once. *)
Record IterState : Type := mkIterState {
  page_ranks : Dict.t Q;
  current_count : Z;
  convergence_count : Z;
  reference_page : option string
}.

Definition threshold : Q := 1 # 1000.

(** The inner [for reference_page in pages_that_mention_pages[current_page]]:
    returns [references_sum] and the last value of [reference_page]. *)
Definition sum_references (corpus : Corpus) (damping_factor : Q)
           (page_count : Z) (ranks : Dict.t Q) (contributors : pyset)
           (acc : Q * option string) : result (Q * option string) :=
  for_each contributors acc
    (fun acc reference_page =>
       r <- Dict.getitem reference_page ranks ;;
       links <- Dict.getitem reference_page corpus ;;
       let l := set_len links in
       q <- true_div r (inject_Z (if (l =? 0)%Z then page_count else l)) ;;
       Ok (fst acc + damping_factor * q, Some reference_page)).

(** The computation of [references_sum] for [current_page], both
    branches of the [if current_page in pages_that_mention_pages]. *)
Definition references_of (corpus : Corpus) (damping_factor : Q)
           (page_count : Z) (mentions : Dict.t pyset) (st : IterState)
           (current_page : string) : result (Q * option string) :=
  let references_sum := 0 in
  if Dict.mem current_page mentions then
    contributors <- Dict.getitem current_page mentions ;;
    sum_references corpus damping_factor page_count (page_ranks st)
                   contributors (references_sum, reference_page st)
  else
    match reference_page st with
    | None => Raise UnboundLocalError
    | Some rp =>
        r <- Dict.getitem rp (page_ranks st) ;;
        q <- true_div r (inject_Z page_count) ;;
        Ok (references_sum + damping_factor * q, Some rp)
    end.

(** The page updated at a given value of [current_count]. *)
Definition page_at (pages_list : list string) (page_count count : Z)
  : result string :=
  list_index pages_list (count mod page_count)%Z.

(** The body of [while True] after the [break] test. *)
Definition iterate_step (corpus : Corpus) (damping_factor : Q)
           (mentions : Dict.t pyset) (st : IterState) : result IterState :=
  let page_count := Dict.len corpus in
  let pages_list := Dict.keys corpus in
  current_page <- page_at pages_list page_count (current_count st) ;;
  refs <- references_of corpus damping_factor page_count mentions st
            current_page ;;
  a <- true_div (1 - damping_factor) (inject_Z page_count) ;;
  let new_rank := a + fst refs in
  old <- Dict.getitem current_page (page_ranks st) ;;
  let convergence_count :=
    if Qle_bool (Qabs (old - new_rank)) threshold
    then (convergence_count st + 1)%Z else 0%Z in
  Ok {| page_ranks := Dict.set current_page new_rank (page_ranks st);
        current_count := (current_count st + 1)%Z;
        convergence_count := convergence_count;
        reference_page := snd refs |}.

(** The [break] test at the head of the loop. *)
Definition converged (corpus : Corpus) (st : IterState) : bool :=
  (Dict.len corpus <=? convergence_count st)%Z.

(** [while True] with a bound on the number of iterations: [None] means
    that the bound was reached before the loop ended. *)
Fixpoint iterate_loop (fuel : nat) (corpus : Corpus) (damping_factor : Q)
         (mentions : Dict.t pyset) (st : IterState)
  : option (result (Dict.t Q)) :=
  if converged corpus st then Some (Ok (page_ranks st))
  else match fuel with
       | O => None
       | S fuel' =>
           match iterate_step corpus damping_factor mentions st with
           | Raise e => Some (Raise e)
           | Ok st' => iterate_loop fuel' corpus damping_factor mentions st'
           end
       end.

(** Everything before [while True]: the reverse index and the state in
    which the loop is entered. *)
Definition iterate_start (corpus : Corpus)
  : result (Dict.t pyset * IterState) :=
  let page_count := Dict.len corpus in
  starting_rank <- true_div 1 (inject_Z page_count) ;;
  acc <- iterate_setup corpus starting_rank ;;
  Ok (snd acc,
      {| page_ranks := fst acc;
         current_count := 0;
         convergence_count := 0;
         reference_page := None |}).

Definition iterate_pagerank (fuel : nat) (corpus : Corpus)
           (damping_factor : Q) : option (result (Dict.t Q)) :=
  match iterate_start corpus with
  | Raise e => Some (Raise e)
  | Ok (mentions, st) => iterate_loop fuel corpus damping_factor mentions st
  end.

(** The states of the loop: [reaches st st'] when the loop, entered in
    [st], gets to [st'] through updates none of which was preceded by a
    [break]. *)
Inductive reaches (corpus : Corpus) (damping_factor : Q)
          (mentions : Dict.t pyset) (st : IterState) : IterState -> Prop :=
| reaches_here : reaches corpus damping_factor mentions st st
| reaches_update (st' st'' : IterState) :
    reaches corpus damping_factor mentions st st' ->
    converged corpus st' = false ->
    iterate_step corpus damping_factor mentions st' = Ok st'' ->
    reaches corpus damping_factor mentions st st''.

(** The corpus [{A: {B}, B: {A}, C: {A}}]: no page links to [C]. *)
Definition corpus_no_inbound : Corpus :=
  [("A", ["B"]); ("B", ["A"]); ("C", ["A"])].

(** The corpus [{A: {B,C,D}, B: {A}, C: {A}, D: {}}]: every page has an
    inbound link and [D] has no outgoing link. *)
Definition corpus_dangling_d : Corpus :=
  [("A", ["B"; "C"; "D"]); ("B", ["A"]); ("C", ["A"]); ("D", [])].

(** ** Closed forms used in the statements *)

(** The probability that [transition_model] gives to [key], when the
    current page has the links [linked]. *)
Definition tm_entry (corpus : Corpus) (linked : pyset) (damping_factor : Q)
           (key : string) : Q :=
  let N := inject_Z (Dict.len corpus) in
  let k := inject_Z (set_len linked) in
  if negb (set_len linked =? 0)%Z then
    if in_set key linked
    then 1 / N * (1 - damping_factor) + 1 / k * damping_factor
    else 1 / N * (1 - damping_factor)
  else 1 / N.

Definition tm_dist (corpus : Corpus) (linked : pyset) (damping_factor : Q)
  : Dict.t Q :=
  map (fun q => (q, tm_entry corpus linked damping_factor q)) (Dict.keys corpus).

(** The corpus [{A: {B}, B: {A}}]. *)
Definition corpus_ab : Corpus := [("A", ["B"]); ("B", ["A"])].

(** The corpus [{A: {}, B: {A}, C: {A}}]. *)
Definition corpus_dangling_a : Corpus := [("A", []); ("B", ["A"]); ("C", ["A"])].

(** ** The walk of the sampler *)

(** The page that follows [cur] when [random.random()] returns [r]: the
    page chosen by the selection loop, or [cur] itself when the loop
    ends without choosing. *)
Definition next_page (corpus : Corpus) (damping_factor : Q) (cur : string)
           (r : Q) : string :=
  match transition_model corpus cur damping_factor with
  | Ok dist =>
      match select_next dist (Dict.keys dist) 0 r with
      | Ok (Some key) => key
      | _ => cur
      end
  | Raise _ => cur
  end.

(** The pages visited, in order: one per iteration. *)
Fixpoint walk (corpus : Corpus) (damping_factor : Q) (rs : nat -> Q)
         (steps : list nat) (cur : string) : list string :=
  match steps with
  | [] => []
  | i :: steps' =>
      cur :: walk corpus damping_factor rs steps'
               (next_page corpus damping_factor cur (rs i))
  end.

(** Number of visits of [q] in a walk. *)
Definition visits (trace : list string) (q : string) : Z :=
  Z.of_nat (count_occ string_dec trace q).

(** The cache of the sampler only holds results of [transition_model]. *)
Definition cache_ok (corpus : Corpus) (damping_factor : Q)
           (cache : Dict.t (Dict.t Q)) : Prop :=
  forall q dist,
    Dict.get q cache = Some dist ->
    transition_model corpus q damping_factor = Ok dist.

(** The counting statement of the sampler, as a function. *)
Definition count_visit (counts : Dict.t Z) (cur : string) : Dict.t Z :=
  match Dict.get cur counts with
  | Some v => Dict.set cur (v + 1)%Z counts
  | None => Dict.set cur 1%Z counts
  end.

Definition count_all (trace : list string) : Dict.t Z :=
  fold_left count_visit trace [].

Definition Zsum (l : list Z) : Z := fold_right Z.add 0%Z l.

(** The value that the selection loop reads for [k]. *)
Definition value_of (dist : Dict.t Q) (k : string) : Q :=
  match Dict.get k dist with
  | Some v => v
  | None => 0
  end.

(** The value that the output loop of the sampler stores for [key]. *)
Definition rank_of (counts : Dict.t Z) (n : Z) (key : string) : Q :=
  inject_Z (match Dict.get key counts with Some v => v | None => 0%Z end)
  / inject_Z n.

(** What one pass through the body of [while True] does, from [st] to
    [st']: the page at position [current_count mod N] of the fixed page
    list gets the rank computed from the ranks of [st] (which hold the
    updates made so far), stored in place; the other ranks are
    untouched; [current_count] advances by one; [convergence_count]
    grows by one when the change is at most [threshold] and is reset to
    zero otherwise. *)
Definition update_spec (corpus : Corpus) (damping_factor : Q)
           (mentions : Dict.t pyset) (st st' : IterState) : Prop :=
  exists q refs old new,
    nth_error (Dict.keys corpus)
              (Z.to_nat (current_count st mod Dict.len corpus)) = Some q /\
    references_of corpus damping_factor (Dict.len corpus) mentions st q
    = Ok refs /\
    Dict.get q (page_ranks st) = Some old /\
    new = (1 - damping_factor) / inject_Z (Dict.len corpus) + fst refs /\
    page_ranks st' = Dict.set q new (page_ranks st) /\
    Dict.get q (page_ranks st') = Some new /\
    (forall q', q' <> q ->
                Dict.get q' (page_ranks st') = Dict.get q' (page_ranks st)) /\
    current_count st' = (current_count st + 1)%Z /\
    convergence_count st' =
      if Qle_bool (Qabs (old - new)) (1 # 1000)
      then (convergence_count st + 1)%Z else 0%Z.

(** ** crawl *)

(** [s.endswith(suffix)] *)
Definition endswith (s suffix : string) : bool :=
  let n := String.length s in
  let m := String.length suffix in
  (m <=? n)%nat && String.eqb (substring (n - m) m s) suffix.

(** [set(xs)] *)
Definition set_of_list (xs : list string) : pyset :=
  fold_left (fun s x => set_add x s) xs [].

(** [s - {x}] *)
Definition set_discard (x : string) (s : pyset) : pyset :=
  filter (fun y => negb (String.eqb y x)) s.

Section CrawlModel.
(** [findall contents] stands for [re.findall(pattern, contents)] with
    the anchor pattern of the source, which returns the targets of the
    href attributes; a directory is the list of its files, name and
    contents, in the order of [os.listdir]. *)
Variable findall : string -> list string.

(** The first loop of [crawl]: the links of every [.html] file, the
    file itself excluded. *)
Definition crawl_read (directory : list (string * string)) : Dict.t pyset :=
  fold_left
    (fun pages entry =>
       let filename := fst entry in
       if negb (endswith filename ".html") then pages
       else
         let contents := snd entry in
         let links := findall contents in
         Dict.set filename (set_discard filename (set_of_list links)) pages)
    directory [].

(** The second loop of [crawl]: only links to pages of the corpus are
    kept. *)
Definition crawl_filter (pages : Dict.t pyset) : result (Dict.t pyset) :=
  for_each (Dict.keys pages) pages
    (fun pages filename =>
       s <- Dict.getitem filename pages ;;
       Ok (Dict.set filename
                    (set_of_list (filter (fun link => Dict.mem link pages) s))
                    pages)).

Definition crawl (directory : list (string * string)) : result Corpus :=
  crawl_filter (crawl_read directory).
End CrawlModel.

(** The corpus [{A: {B, Z}, B: {A}}]: [Z] is not a page. *)
Definition corpus_open : Corpus := [("A", ["B"; "Z"]); ("B", ["A"])].

(** [len(corpus[p])], the number of outgoing links of [p]. *)
Definition out_degree (corpus : Corpus) (p : string) : Z :=
  match Dict.get p corpus with
  | Some links => set_len links
  | None => 0%Z
  end.

(** The value of the loop variable of [for p in ps] after the loop:
    the last element, or what the variable held before when [ps] is
    empty. *)
Definition last_bound (ps : list string) (before : option string)
  : option string :=
  fold_left (fun _ p => Some p) ps before.

(** The sum of [1 / len(corpus[p])] over the pages [p] that link to
    [q]: what [q] receives, per unit of rank and of damping, when every
    page has the same rank. *)
Definition inbound_weight (corpus : Corpus) (q : string) : Q :=
  Qsum (map (fun kv => if in_set q (snd kv)
                       then 1 / inject_Z (set_len (snd kv)) else 0)
            corpus).

(** The cycle [A -> B -> C -> A]. *)
Definition corpus_cycle : Corpus := [("A", ["B"]); ("B", ["C"]); ("C", ["A"])].

(** The corpus [{A: {B}, C: {A}, B: {A}}], in this order: the second
    page updated has no inbound link. *)
Definition corpus_second_orphan : Corpus :=
  [("A", ["B"]); ("C", ["A"]); ("B", ["A"])].

(** The reverse index and the entry state of the loop on
    [corpus_second_orphan], and the state after the first update with
    damping 0.85. *)
Definition orphan_start : Dict.t pyset * IterState :=
  Eval vm_compute in
    match iterate_start corpus_second_orphan with
    | Ok x => x
    | Raise _ => ([], mkIterState [] 0 0 None)
    end.

Definition orphan_after_one : IterState :=
  Eval vm_compute in
    match iterate_step corpus_second_orphan (85 # 100)
                       (fst orphan_start) (snd orphan_start) with
    | Ok st => st
    | Raise _ => snd orphan_start
    end.

(** The ranks returned on [corpus_ab] with damping 0.85. *)
Definition ranks_ab : Dict.t Q :=
  Eval vm_compute in
    match iterate_pagerank 2 corpus_ab (85 # 100) with
    | Some (Ok r) => r
    | _ => []
    end.

(** ** The sampler over binary64 floats *)

(** [float(n)] for an [int] that fits a machine integer. *)
Definition float_of_int (n : Z) : PrimFloat.float :=
  PrimFloat.of_uint63 (Uint63.of_Z n).

(** [a / b] on two [int]s: Python's true division, which raises on a
    zero divisor and otherwise returns the correctly rounded quotient;
    for operands below 2^53 that is the binary64 quotient of the two
    converted operands. *)
Definition int_true_div (a b : Z) : result PrimFloat.float :=
  if (b =? 0)%Z then Raise ZeroDivisionError
  else Ok (PrimFloat.div (float_of_int a) (float_of_int b)).

(** [transition_model] with the arithmetic of the program. *)
Definition transition_model_f (corpus : Corpus) (page : string)
           (damping_factor : PrimFloat.float)
  : result (Dict.t PrimFloat.float) :=
  linked_pages <- Dict.getitem page corpus ;;
  let corpus_length := Dict.len corpus in
  let linked_pages_length := set_len linked_pages in
  probabilities <-
    (if negb (linked_pages_length =? 0)%Z then
       a <- int_true_div 1 corpus_length ;;
       b <- int_true_div 1 linked_pages_length ;;
       Ok (PrimFloat.mul a (PrimFloat.sub (float_of_int 1) damping_factor),
           PrimFloat.mul b damping_factor)
     else
       a <- int_true_div 1 corpus_length ;;
       Ok (a, float_of_int 0)) ;;
  let random_page_probability := fst probabilities in
  let linked_page_probability := snd probabilities in
  for_each (Dict.keys corpus) []
    (fun output key =>
       let output := Dict.set key random_page_probability output in
       if in_set key linked_pages then
         v <- Dict.getitem key output ;;
         Ok (Dict.set key (PrimFloat.add v linked_page_probability) output)
       else Ok output).

(** The selection loop with the arithmetic of the program. *)
Fixpoint select_next_f (dist : Dict.t PrimFloat.float) (ks : list string)
         (prob_count rgn : PrimFloat.float) : result (option string) :=
  match ks with
  | [] => Ok None
  | key :: ks' =>
      p <- Dict.getitem key dist ;;
      let prob_count := PrimFloat.add prob_count p in
      if PrimFloat.ltb rgn prob_count then Ok (Some key)
      else select_next_f dist ks' prob_count rgn
  end.

Record SampleStateF : Type := mkSampleStateF {
  current_page_f : string;
  pages_probabilities_f : Dict.t (Dict.t PrimFloat.float);
  pages_count_f : Dict.t Z
}.

(** The body of [for i in range(n)] with the arithmetic of the
    program. *)
Definition sample_step_f (corpus : Corpus) (damping_factor : PrimFloat.float)
           (rgn : PrimFloat.float) (st : SampleStateF) : result SampleStateF :=
  let cur := current_page_f st in
  counts <-
    (if Dict.mem cur (pages_count_f st) then
       v <- Dict.getitem cur (pages_count_f st) ;;
       Ok (Dict.set cur (v + 1)%Z (pages_count_f st))
     else Ok (Dict.set cur 1%Z (pages_count_f st))) ;;
  cached <-
    (if Dict.mem cur (pages_probabilities_f st) then
       v <- Dict.getitem cur (pages_probabilities_f st) ;;
       Ok (v, pages_probabilities_f st)
     else
       v <- transition_model_f corpus cur damping_factor ;;
       Ok (v, Dict.set cur v (pages_probabilities_f st))) ;;
  let current_page_probabilities := fst cached in
  chosen <- select_next_f current_page_probabilities
              (Dict.keys current_page_probabilities) (float_of_int 0) rgn ;;
  Ok {| current_page_f := match chosen with Some key => key | None => cur end;
        pages_probabilities_f := snd cached;
        pages_count_f := counts |}.

(** A corpus of ten pages: [p0] has no link, every other page links to
    [p0]. *)
Definition corpus_ten : Corpus :=
  [("p0", []); ("p1", ["p0"]); ("p2", ["p0"]); ("p3", ["p0"]);
   ("p4", ["p0"]); ("p5", ["p0"]); ("p6", ["p0"]); ("p7", ["p0"]);
   ("p8", ["p0"]); ("p9", ["p0"])].

(** The largest value of [random.random()], (2^53 - 1) / 2^53. *)
Definition largest_draw : PrimFloat.float :=
  PrimFloat.div (float_of_int 9007199254740991)
                (float_of_int 9007199254740992).

(** The float [0.85]. *)
Definition damping_f : PrimFloat.float :=
  PrimFloat.div (float_of_int 85) (float_of_int 100).

(** * Properties *)

(** ** Dictionaries *)

Section DictFacts.
Context {V : Type}.
Implicit Types (d : Dict.t V) (k : string) (v : V).

Lemma get_set_same k v d : Dict.get k (Dict.set k v d) = Some v.
Proof.
  induction d as [|[k' v'] d IH]; simpl.
  - now rewrite String.eqb_refl.
  - destruct (String.eqb k k') eqn:E; simpl; rewrite E; auto.
Qed.

Lemma get_set_other k k' v d :
  k' <> k -> Dict.get k' (Dict.set k v d) = Dict.get k' d.
Proof.
  intros Hne. induction d as [|[k0 v0] d IH]; simpl.
  - apply String.eqb_neq in Hne. now rewrite Hne.
  - destruct (String.eqb k k0) eqn:E; simpl; auto.
    + apply String.eqb_eq in E. subst k0.
      apply String.eqb_neq in Hne. now rewrite Hne.
    + now rewrite IH.
Qed.

Lemma get_None_notin k d : Dict.get k d = None <-> ~ In k (Dict.keys d).
Proof.
  induction d as [|[k' v'] d IH]; simpl.
  - tauto.
  - destruct (String.eqb k k') eqn:E.
    + apply String.eqb_eq in E. subst. split; [discriminate | tauto].
    + apply String.eqb_neq in E. rewrite IH. intuition congruence.
Qed.

Lemma get_Some_in k v d : Dict.get k d = Some v -> In k (Dict.keys d).
Proof.
  intros H. destruct (in_dec string_dec k (Dict.keys d)) as [|n]; auto.
  apply get_None_notin in n. congruence.
Qed.

Lemma in_keys_get k d : In k (Dict.keys d) -> exists v, Dict.get k d = Some v.
Proof.
  intros H. destruct (Dict.get k d) eqn:E; eauto.
  apply get_None_notin in E. contradiction.
Qed.

Lemma set_fresh k v d : ~ In k (Dict.keys d) -> Dict.set k v d = d ++ [(k, v)].
Proof.
  induction d as [|[k' v'] d IH]; simpl; intros H; auto.
  destruct (String.eqb k k') eqn:E.
  - apply String.eqb_eq in E. subst. tauto.
  - rewrite IH; tauto.
Qed.

Lemma set_last k v v' d :
  ~ In k (Dict.keys d) -> Dict.set k v' (d ++ [(k, v)]) = d ++ [(k, v')].
Proof.
  induction d as [|[k' v0] d IH]; simpl; intros H.
  - now rewrite String.eqb_refl.
  - destruct (String.eqb k k') eqn:E.
    + apply String.eqb_eq in E. subst. tauto.
    + rewrite IH; tauto.
Qed.

Lemma get_last k v d :
  ~ In k (Dict.keys d) -> Dict.get k (d ++ [(k, v)]) = Some v.
Proof.
  intros H. rewrite <- (set_fresh k v d H). apply get_set_same.
Qed.

Lemma keys_set k v d :
  Dict.keys (Dict.set k v d) =
  if Dict.mem k d then Dict.keys d else Dict.keys d ++ [k].
Proof.
  unfold Dict.mem. induction d as [|[k' v'] d IH]; simpl; auto.
  destruct (String.eqb k k') eqn:E; simpl; auto.
  rewrite IH. now destruct (Dict.get k d).
Qed.

Lemma mem_true_iff k d : Dict.mem k d = true <-> In k (Dict.keys d).
Proof.
  unfold Dict.mem. destruct (Dict.get k d) eqn:E.
  - split; auto. intros _. eapply get_Some_in; eauto.
  - apply get_None_notin in E. split; [discriminate | tauto].
Qed.

Lemma mem_false_iff k d : Dict.mem k d = false <-> ~ In k (Dict.keys d).
Proof.
  rewrite <- mem_true_iff. now destruct (Dict.mem k d).
Qed.

Lemma NoDup_keys_set k v d :
  NoDup (Dict.keys d) -> NoDup (Dict.keys (Dict.set k v d)).
Proof.
  intros H. rewrite keys_set. destruct (Dict.mem k d) eqn:E; auto.
  apply mem_false_iff in E.
  apply NoDup_app; auto.
  - constructor; [intros [] | constructor].
  - intros x Hx [->|[]]. contradiction.
Qed.

Lemma get_tabulate (f : string -> V) k ks :
  In k ks -> Dict.get k (map (fun q => (q, f q)) ks) = Some (f k).
Proof.
  induction ks as [|q ks IH]; simpl; [tauto|].
  intros H. destruct (String.eqb k q) eqn:E.
  - apply String.eqb_eq in E. now subst.
  - apply String.eqb_neq in E. apply IH. destruct H; congruence.
Qed.

Lemma keys_tabulate (f : string -> V) ks :
  Dict.keys (map (fun q => (q, f q)) ks) = ks.
Proof.
  unfold Dict.keys. rewrite map_map. simpl. apply map_id.
Qed.

Lemma getitem_Ok k v d : Dict.get k d = Some v -> Dict.getitem k d = Ok v.
Proof. unfold Dict.getitem. now intros ->. Qed.

End DictFacts.

Lemma in_set_true_iff k s : in_set k s = true <-> In k s.
Proof.
  unfold in_set. rewrite existsb_exists. split.
  - intros (x & Hx & E). apply String.eqb_eq in E. now subst.
  - intros H. exists k. split; auto. apply String.eqb_refl.
Qed.

Lemma in_set_false_iff k s : in_set k s = false <-> ~ In k s.
Proof.
  rewrite <- in_set_true_iff. now destruct (in_set k s).
Qed.

(** ** Arithmetic *)

Lemma Qeq_bool_inject_Z_nonzero (z : Z) :
  z <> 0%Z -> Qeq_bool (inject_Z z) 0 = false.
Proof.
  intros Hz. destruct (Qeq_bool (inject_Z z) 0) eqn:E; auto.
  apply Qeq_bool_eq in E. unfold Qeq in E. simpl in E. lia.
Qed.

Lemma true_div_Ok (a : Q) (z : Z) :
  z <> 0%Z -> true_div a (inject_Z z) = Ok (a / inject_Z z).
Proof.
  intros Hz. unfold true_div. now rewrite Qeq_bool_inject_Z_nonzero.
Qed.

Lemma inject_Z_nonzero (z : Z) : z <> 0%Z -> ~ inject_Z z == 0.
Proof.
  intros Hz E. unfold Qeq in E. simpl in E. lia.
Qed.

Lemma len_pos {V : Type} (k : string) (v : V) (d : Dict.t V) :
  Dict.get k d = Some v -> (0 < Dict.len d)%Z.
Proof.
  unfold Dict.len. destruct d; simpl; [discriminate | lia].
Qed.

(** ** transition_model *)

Section TransitionLoop.
Variables (rpp lpp : Q) (linked : pyset).

Let body (output : Dict.t Q) (key : string) : result (Dict.t Q) :=
  let output := Dict.set key rpp output in
  if in_set key linked then
    v <- Dict.getitem key output ;;
    Ok (Dict.set key (v + lpp) output)
  else Ok output.

Let entry (q : string) : Q := if in_set q linked then rpp + lpp else rpp.

Lemma tm_loop_spec (ks : list string) (out : Dict.t Q) :
  NoDup ks ->
  (forall k, In k ks -> ~ In k (Dict.keys out)) ->
  for_each ks out body = Ok (out ++ map (fun q => (q, entry q)) ks).
Proof.
  revert out. induction ks as [|k ks IH]; intros out Hnd Hfresh; simpl.
  - now rewrite app_nil_r.
  - inversion Hnd as [|? ? Hk Hnd']; subst.
    assert (Hko : ~ In k (Dict.keys out)) by (apply Hfresh; now left).
    assert (Hstep : body out k = Ok (out ++ [(k, entry k)])).
    { unfold body, entry. rewrite (set_fresh k rpp out Hko).
      destruct (in_set k linked); auto.
      unfold Dict.getitem. rewrite (get_last k rpp out Hko). simpl.
      now rewrite set_last. }
    rewrite Hstep. simpl. rewrite IH; auto.
    + now rewrite <- app_assoc.
    + intros q Hq. unfold Dict.keys. rewrite map_app, in_app_iff. simpl.
      intros [H|[H|[]]].
      * apply (Hfresh q); [now right | exact H].
      * subst. contradiction.
Qed.
End TransitionLoop.

(** On a page of the corpus, [transition_model] returns the tabulated
    distribution [tm_dist]. *)
Lemma transition_model_eq (corpus : Corpus) (page : string) (d : Q)
      (linked : pyset) :
  NoDup (Dict.keys corpus) ->
  Dict.get page corpus = Some linked ->
  transition_model corpus page d = Ok (tm_dist corpus linked d).
Proof.
  intros Hnd Hget. unfold transition_model.
  rewrite (getitem_Ok _ _ _ Hget). simpl.
  pose proof (len_pos _ _ _ Hget) as HN.
  rewrite (true_div_Ok 1 (Dict.len corpus)) by lia.
  unfold tm_dist, tm_entry.
  destruct (set_len linked =? 0)%Z eqn:Ek; simpl.
  - rewrite tm_loop_spec; auto. simpl.
    apply Z.eqb_eq in Ek. unfold set_len in Ek.
    destruct linked; [|simpl in Ek; lia]. reflexivity.
  - apply Z.eqb_neq in Ek. rewrite (true_div_Ok 1 (set_len linked)) by lia.
    simpl. rewrite tm_loop_spec; auto.
Qed.

Lemma NoDup_keys_abc : NoDup (Dict.keys corpus_abc).
Proof.
  repeat constructor; simpl; intuition discriminate.
Qed.

(** C1: on a page with [k > 0] outgoing links, [transition_model] gives
    every page of the graph [(1-d)/N], plus [d/k] for the linked pages;
    on the graph [{A:{B,C}, B:{C}, C:{B}}] with [d = 0.85] and page [A]
    the result is [{A: 0.05, B: 0.475, C: 0.475}]. *)
Theorem transition_model_linked_page :
  (forall (corpus : Corpus) (page : string) (d : Q) (links : pyset),
      NoDup (Dict.keys corpus) ->
      Dict.get page corpus = Some links ->
      links <> [] ->
      exists out,
        transition_model corpus page d = Ok out /\
        Dict.keys out = Dict.keys corpus /\
        forall q, In q (Dict.keys corpus) ->
          exists v,
            Dict.get q out = Some v /\
            v == (1 - d) / inject_Z (Dict.len corpus)
                 + (if in_set q links
                    then d / inject_Z (set_len links) else 0))
  /\ (exists out,
         transition_model corpus_abc "A" (85 # 100) = Ok out /\
         dict_eqv out [("A", 5 # 100); ("B", 475 # 1000); ("C", 475 # 1000)]).
Proof.
  split.
  - intros corpus page d links Hnd Hget Hne.
    exists (tm_dist corpus links d). split; [|split].
    + now apply transition_model_eq.
    + apply keys_tabulate.
    + intros q Hq. eexists. split.
      * unfold tm_dist. now apply get_tabulate.
      * pose proof (len_pos _ _ _ Hget) as HN.
        assert (Hk : (0 < set_len links)%Z)
          by (unfold set_len; destruct links; simpl; [congruence | lia]).
        assert (HN' : ~ inject_Z (Dict.len corpus) == 0)
          by (apply inject_Z_nonzero; lia).
        assert (Hk' : ~ inject_Z (set_len links) == 0)
          by (apply inject_Z_nonzero; lia).
        unfold tm_entry.
        replace (set_len links =? 0)%Z with false
          by (symmetry; apply Z.eqb_neq; lia).
        simpl. destruct (in_set q links); field; auto.
  - eexists. split.
    + apply transition_model_eq with (linked := ["B"; "C"]);
        [apply NoDup_keys_abc | reflexivity].
    + vm_compute. repeat constructor; reflexivity.
Qed.

Lemma transition_model_linked_page_witness :
  NoDup (Dict.keys corpus_abc) /\
  Dict.get "B" corpus_abc = Some ["C"] /\
  ["C"] <> [] /\
  exists out,
    transition_model corpus_abc "B" (1 # 2) = Ok out /\
    Dict.keys out = Dict.keys corpus_abc /\
    forall q, In q (Dict.keys corpus_abc) ->
      exists v,
        Dict.get q out = Some v /\
        v == (1 - (1 # 2)) / inject_Z (Dict.len corpus_abc)
             + (if in_set q ["C"]
                then (1 # 2) / inject_Z (set_len ["C"]) else 0).
Proof.
  assert (Hnd : NoDup (Dict.keys corpus_abc))
    by (repeat constructor; simpl; intuition discriminate).
  assert (Hne : ["C"] <> @nil string) by discriminate.
  split; [exact Hnd|]. split; [reflexivity|]. split; [exact Hne|].
  exact (proj1 transition_model_linked_page corpus_abc "B" (1 # 2) ["C"]
               Hnd eq_refl Hne).
Defined.

(** C4: on a page without outgoing links, [transition_model] is the
    uniform distribution [1/N] over the pages of the graph, whatever the
    damping factor. *)
Theorem transition_model_dangling_uniform
        (corpus : Corpus) (page : string) (d : Q) :
  NoDup (Dict.keys corpus) ->
  Dict.get page corpus = Some [] ->
  (1 <= Dict.len corpus)%Z /\
  transition_model corpus page d =
  Ok (map (fun q => (q, 1 / inject_Z (Dict.len corpus))) (Dict.keys corpus)).
Proof.
  intros Hnd Hget. split.
  - pose proof (len_pos _ _ _ Hget). lia.
  - rewrite (transition_model_eq corpus page d [] Hnd Hget). reflexivity.
Qed.

Lemma transition_model_dangling_uniform_witness :
  transition_model corpus_dangling_a "A" 1 =
  Ok [("A", 1 / 3); ("B", 1 / 3); ("C", 1 / 3)].
Proof.
  assert (Hnd : NoDup (Dict.keys corpus_dangling_a))
    by (repeat constructor; simpl; intuition discriminate).
  exact (proj2 (transition_model_dangling_uniform
                  corpus_dangling_a "A" 1 Hnd eq_refl)).
Defined.

(** ** Sums of distributions *)

Lemma values_tabulate {V : Type} (f : string -> V) (ks : list string) :
  Dict.values (map (fun q => (q, f q)) ks) = map f ks.
Proof.
  unfold Dict.values. rewrite map_map. reflexivity.
Qed.

Lemma inject_Z_of_nat_S (n : nat) :
  inject_Z (Z.of_nat (S n)) == inject_Z (Z.of_nat n) + 1.
Proof.
  rewrite Nat2Z.inj_succ. unfold Z.succ. now rewrite inject_Z_plus.
Qed.

Lemma Qsum_two_levels (b : string -> bool) (x y : Q) (ks : list string) :
  Qsum (map (fun q => if b q then x + y else x) ks) ==
  inject_Z (Z.of_nat (length ks)) * x
  + inject_Z (Z.of_nat (length (filter b ks))) * y.
Proof.
  induction ks as [|q ks IH].
  - simpl. ring.
  - cbn [map Qsum fold_right filter]. fold (Qsum (map (fun q => if b q then x + y else x) ks)).
    rewrite IH. cbn [length]. destruct (b q).
    + cbn [length]. rewrite !inject_Z_of_nat_S. ring.
    + rewrite inject_Z_of_nat_S. ring.
Qed.

Lemma Qsum_const (x : Q) (ks : list string) :
  Qsum (map (fun _ => x) ks) == inject_Z (Z.of_nat (length ks)) * x.
Proof.
  induction ks as [|q ks IH].
  - simpl. ring.
  - cbn [map Qsum fold_right]. fold (Qsum (map (fun _ => x) ks)).
    rewrite IH. cbn [length]. rewrite inject_Z_of_nat_S. ring.
Qed.

(** The pages of [ks] that belong to the set [links] are as many as the
    set has elements, when the set is included in [ks]. *)
Lemma count_linked (links : pyset) (ks : list string) :
  NoDup ks -> NoDup links -> incl links ks ->
  length (filter (fun q => in_set q links) ks) = length links.
Proof.
  intros Hks Hl Hincl. apply Permutation_length.
  apply NoDup_Permutation; auto.
  - now apply NoDup_filter.
  - intros x. rewrite filter_In, in_set_true_iff. split; [tauto|].
    intros H. split; auto.
Qed.

Lemma get_in_corpus {V : Type} (k : string) (v : V) (d : Dict.t V) :
  Dict.get k d = Some v -> In (k, v) d.
Proof.
  induction d as [|[k' v'] d IH]; simpl; [discriminate|].
  destruct (String.eqb k k') eqn:E.
  - apply String.eqb_eq in E. intros [= ->]. subst. now left.
  - intros H. right. auto.
Qed.

Lemma tm_dist_sum (corpus : Corpus) (page : string) (links : pyset) (d : Q) :
  wf_corpus corpus -> closed_corpus corpus ->
  Dict.get page corpus = Some links ->
  Qsum (Dict.values (tm_dist corpus links d)) == 1.
Proof.
  intros [Hnd Hsets] Hclosed Hget.
  pose proof (len_pos _ _ _ Hget) as HN.
  pose proof (get_in_corpus _ _ _ Hget) as Hin.
  assert (HndL : NoDup links).
  { rewrite Forall_forall in Hsets. exact (Hsets _ Hin). }
  assert (Hincl : incl links (Dict.keys corpus)).
  { unfold closed_corpus in Hclosed. rewrite Forall_forall in Hclosed.
    exact (Hclosed _ Hin). }
  assert (HN' : ~ inject_Z (Dict.len corpus) == 0)
    by (apply inject_Z_nonzero; lia).
  unfold tm_dist. rewrite values_tabulate. unfold tm_entry.
  destruct (set_len links =? 0)%Z eqn:Ek; simpl.
  - rewrite Qsum_const. unfold Dict.keys. rewrite length_map.
    fold (Dict.len corpus). field. exact HN'.
  - apply Z.eqb_neq in Ek.
    assert (Hk' : ~ inject_Z (set_len links) == 0)
      by (apply inject_Z_nonzero; lia).
    rewrite (Qsum_two_levels (fun q => in_set q links)).
    rewrite count_linked by auto.
    unfold Dict.keys. rewrite length_map.
    fold (Dict.len corpus). fold (set_len links). field. auto.
Qed.

Lemma inject_Z_pos (z : Z) : (0 < z)%Z -> 0 < inject_Z z.
Proof.
  intros Hz. unfold Qlt. simpl. lia.
Qed.

Lemma tm_entry_sign (corpus : Corpus) (links : pyset) (d : Q) (q : string) :
  (0 < Dict.len corpus)%Z -> 0 <= d <= 1 ->
  0 <= tm_entry corpus links d q /\
  (d < 1 \/ links = [] -> 0 < tm_entry corpus links d q).
Proof.
  intros HN [Hd0 Hd1].
  pose proof (Qinv_lt_0_compat _ (inject_Z_pos _ HN)) as Ha.
  unfold tm_entry.
  destruct (set_len links =? 0)%Z eqn:Ek; simpl.
  - unfold Qdiv. split; [|intros _]; lra.
  - apply Z.eqb_neq in Ek.
    assert (Hk : (0 < set_len links)%Z) by (unfold set_len in *; lia).
    pose proof (Qinv_lt_0_compat _ (inject_Z_pos _ Hk)) as Hb.
    unfold Qdiv.
    set (a := / inject_Z (Dict.len corpus)) in *.
    set (b := / inject_Z (set_len links)) in *.
    split.
    + destruct (in_set q links); nra.
    + intros [Hlt | ->]; [|now unfold set_len in Ek].
      destruct (in_set q links); nra.
Qed.

(** C6, as stated, fails: with [d = 1] a page that is not linked from
    the current page gets probability zero. *)
Lemma transition_model_entry_not_positive :
  exists out v,
    transition_model corpus_ab "A" 1 = Ok out /\
    Dict.len out = Dict.len corpus_ab /\
    0 <= 1 <= 1 /\
    Dict.get "A" out = Some v /\
    ~ 0 < v.
Proof.
  eexists. eexists. split; [reflexivity|].
  split; [reflexivity|]. split; [split; discriminate|].
  split; [reflexivity|].
  vm_compute. discriminate.
Qed.

(** C6 (amended): for a page of a well-formed graph and [d] in [0,1],
    the distribution has one entry per page, sums to 1, every entry is
    non-negative, and every entry is strictly positive when [d < 1] or
    the page has no outgoing links. *)
Theorem transition_model_distribution
        (corpus : Corpus) (page : string) (d : Q) (links : pyset) :
  wf_corpus corpus -> closed_corpus corpus ->
  Dict.get page corpus = Some links ->
  0 <= d <= 1 ->
  exists out,
    transition_model corpus page d = Ok out /\
    (1 <= Dict.len corpus)%Z /\
    Dict.len out = Dict.len corpus /\
    Dict.keys out = Dict.keys corpus /\
    Qsum (Dict.values out) == 1 /\
    (forall v, In v (Dict.values out) -> 0 <= v) /\
    (d < 1 \/ links = [] -> forall v, In v (Dict.values out) -> 0 < v).
Proof.
  intros Hwf Hclosed Hget Hd.
  pose proof (len_pos _ _ _ Hget) as HN.
  exists (tm_dist corpus links d).
  split; [apply transition_model_eq; [apply Hwf | exact Hget]|].
  split; [lia|].
  split; [unfold Dict.len, tm_dist, Dict.keys; now rewrite !length_map|].
  split; [apply keys_tabulate|].
  split; [eapply tm_dist_sum; eauto|].
  unfold tm_dist. rewrite values_tabulate. split.
  - intros v Hv. apply in_map_iff in Hv as (q & <- & _).
    now apply tm_entry_sign.
  - intros Hpos v Hv. apply in_map_iff in Hv as (q & <- & _).
    now apply tm_entry_sign.
Qed.

Lemma wf_corpus_abc : wf_corpus corpus_abc.
Proof.
  split; repeat constructor; simpl; intuition discriminate.
Qed.

Lemma closed_corpus_abc : closed_corpus corpus_abc.
Proof.
  unfold closed_corpus.
  repeat apply Forall_cons; try apply Forall_nil; simpl; intros q; tauto.
Qed.

Lemma transition_model_distribution_witness :
  exists out,
    transition_model corpus_abc "A" (85 # 100) = Ok out /\
    (1 <= Dict.len corpus_abc)%Z /\
    Dict.len out = Dict.len corpus_abc /\
    Dict.keys out = Dict.keys corpus_abc /\
    Qsum (Dict.values out) == 1 /\
    (forall v, In v (Dict.values out) -> 0 <= v) /\
    ((85 # 100) < 1 \/ ["B"; "C"] = [] ->
     forall v, In v (Dict.values out) -> 0 < v).
Proof.
  assert (Hd : 0 <= 85 # 100 <= 1) by (split; discriminate).
  exact (transition_model_distribution corpus_abc "A" (85 # 100) ["B"; "C"]
           wf_corpus_abc closed_corpus_abc eq_refl Hd).
Defined.

(** ** The selection loop *)

Lemma Qlt_bool_iff (a b : Q) : Qlt_bool a b = true <-> a < b.
Proof.
  unfold Qlt_bool. rewrite negb_true_iff. split.
  - intros H. apply Qnot_le_lt. intros Hle.
    apply Qle_bool_iff in Hle. congruence.
  - intros H. destruct (Qle_bool b a) eqn:E; auto.
    apply Qle_bool_iff in E. apply Qle_not_lt in E. contradiction.
Qed.

(** The loop never raises on keys of the distribution, and what it
    chooses is one of them. *)
Lemma select_next_total (dist : Dict.t Q) (ks : list string) (acc r : Q) :
  (forall k, In k ks -> In k (Dict.keys dist)) ->
  exists o, select_next dist ks acc r = Ok o /\
            (forall key, o = Some key -> In key ks).
Proof.
  revert acc. induction ks as [|k ks IH]; intros acc Hks; simpl.
  - exists None. split; auto. discriminate.
  - destruct (in_keys_get k dist) as [v Hv]; [apply Hks; now left|].
    rewrite (getitem_Ok _ _ _ Hv). simpl.
    destruct (Qlt_bool r (acc + v)).
    + exists (Some k). split; auto. intros key [= ->]. now left.
    + destruct (IH (acc + v)) as (o & Ho & Hin).
      { intros q Hq. apply Hks. now right. }
      exists o. split; auto.
Qed.

(** When the running sum ends above the draw, the loop chooses. *)
Lemma select_next_chooses (dist : Dict.t Q) (ks : list string) (acc r : Q) :
  (forall k, In k ks -> In k (Dict.keys dist)) ->
  acc <= r ->
  r < acc + Qsum (map (value_of dist) ks) ->
  exists key, select_next dist ks acc r = Ok (Some key) /\ In key ks.
Proof.
  revert acc. induction ks as [|k ks IH]; intros acc Hks Hle Hlt; simpl.
  - simpl in Hlt. lra.
  - destruct (in_keys_get k dist) as [v Hv]; [apply Hks; now left|].
    rewrite (getitem_Ok _ _ _ Hv). simpl.
    destruct (Qlt_bool r (acc + v)) eqn:E.
    + exists k. split; auto.
    + assert (Hge : acc + v <= r).
      { apply Qnot_lt_le. intros H. apply Qlt_bool_iff in H. congruence. }
      cbn [map Qsum fold_right] in Hlt.
      fold (Qsum (map (value_of dist) ks)) in Hlt.
      unfold value_of at 1 in Hlt. rewrite Hv in Hlt.
      destruct (IH (acc + v)) as (key & Hkey & Hin).
      * intros q Hq. apply Hks. now right.
      * exact Hge.
      * lra.
      * exists key. split; auto.
Qed.

Lemma value_of_tabulate (f : string -> Q) (ks : list string) :
  map (value_of (map (fun q => (q, f q)) ks)) ks = map f ks.
Proof.
  apply map_ext_in. intros k Hk. unfold value_of.
  now rewrite get_tabulate.
Qed.

(** ** The sampler *)

Lemma random_choice_Ok {A : Type} (c : nat) (seq : list A) :
  seq <> [] -> exists x, random_choice c seq = Ok x /\ In x seq.
Proof.
  intros Hne. unfold random_choice. destruct seq as [|a seq]; [congruence|].
  destruct (nth_error (a :: seq) (c mod length (a :: seq))) as [x|] eqn:E.
  - exists x. split; auto. eapply nth_error_In; eauto.
  - apply nth_error_None in E.
    pose proof (Nat.mod_upper_bound c (length (a :: seq))) as Hlt.
    simpl in *. lia.
Qed.

Lemma tabulate_loop {V : Type} (body : Dict.t V -> string -> result (Dict.t V))
      (f : string -> V) (ks : list string) (out : Dict.t V) :
  (forall o k, In k ks -> body o k = Ok (Dict.set k (f k) o)) ->
  NoDup ks ->
  (forall k, In k ks -> ~ In k (Dict.keys out)) ->
  for_each ks out body = Ok (out ++ map (fun q => (q, f q)) ks).
Proof.
  revert out. induction ks as [|k ks IH]; intros out Hbody Hnd Hfresh; simpl.
  - now rewrite app_nil_r.
  - inversion Hnd as [|? ? Hk Hnd']; subst.
    rewrite Hbody by now left. simpl.
    rewrite set_fresh by (apply Hfresh; now left).
    rewrite IH; auto.
    + now rewrite <- app_assoc.
    + intros o q Hq. apply Hbody. now right.
    + intros q Hq. unfold Dict.keys. rewrite map_app, in_app_iff. simpl.
      intros [H|[H|[]]].
      * apply (Hfresh q); [now right | exact H].
      * subst. contradiction.
Qed.

Section SamplerFacts.
Variables (corpus : Corpus) (d : Q).
Hypothesis Hnd : NoDup (Dict.keys corpus).

Lemma transition_model_on_page (cur : string) :
  In cur (Dict.keys corpus) ->
  exists links,
    Dict.get cur corpus = Some links /\
    transition_model corpus cur d = Ok (tm_dist corpus links d).
Proof.
  intros Hin. destruct (in_keys_get _ _ Hin) as [links Hl].
  exists links. split; auto. now apply transition_model_eq.
Qed.

Lemma sample_step_spec (r : Q) (st : SampleState) :
  In (current_page st) (Dict.keys corpus) ->
  cache_ok corpus d (pages_probabilities st) ->
  exists st',
    sample_step corpus d r st = Ok st' /\
    current_page st' = next_page corpus d (current_page st) r /\
    In (current_page st') (Dict.keys corpus) /\
    cache_ok corpus d (pages_probabilities st') /\
    pages_count st' = count_visit (pages_count st) (current_page st).
Proof.
  intros Hin Hcache.
  destruct (transition_model_on_page _ Hin) as (links & Hlinks & Htm).
  unfold sample_step. cbv zeta.
  set (cur := current_page st) in *.
  assert (Hc : (if Dict.mem cur (pages_count st)
                then v <- Dict.getitem cur (pages_count st) ;;
                     Ok (Dict.set cur (v + 1)%Z (pages_count st))
                else Ok (Dict.set cur 1%Z (pages_count st)))
               = Ok (count_visit (pages_count st) cur)).
  { unfold Dict.mem, Dict.getitem, count_visit.
    destruct (Dict.get cur (pages_count st)); reflexivity. }
  rewrite Hc. cbn [bind].
  assert (Hp : exists cache',
             (if Dict.mem cur (pages_probabilities st)
              then v <- Dict.getitem cur (pages_probabilities st) ;;
                   Ok (v, pages_probabilities st)
              else v <- transition_model corpus cur d ;;
                   Ok (v, Dict.set cur v (pages_probabilities st)))
             = Ok (tm_dist corpus links d, cache') /\
             cache_ok corpus d cache').
  { unfold Dict.mem, Dict.getitem.
    destruct (Dict.get cur (pages_probabilities st)) as [dist|] eqn:E.
    - exists (pages_probabilities st). split; auto. simpl.
      apply Hcache in E. rewrite Htm in E. now injection E as <-.
    - rewrite Htm. simpl. eexists. split; [reflexivity|].
      intros q dist Hq. destruct (string_dec q cur) as [->|Hne].
      + rewrite get_set_same in Hq. now injection Hq as <-.
      + rewrite get_set_other in Hq by auto. now apply Hcache. }
  destruct Hp as (cache' & -> & Hcache'). cbn [bind fst snd].
  destruct (select_next_total (tm_dist corpus links d)
              (Dict.keys (tm_dist corpus links d)) 0 r)
    as (o & Ho & Hkey); [auto|].
  rewrite Ho. cbn [bind]. eexists. split; [reflexivity|]. cbn.
  unfold next_page. fold cur. rewrite Htm, Ho.
  split; [now destruct o|]. split; auto.
  destruct o as [key|]; auto.
  specialize (Hkey key eq_refl). unfold tm_dist in Hkey.
  now rewrite keys_tabulate in Hkey.
Qed.

Lemma count_all_snoc (seen : list string) (cur : string) :
  count_all (seen ++ [cur]) = count_visit (count_all seen) cur.
Proof.
  unfold count_all. now rewrite fold_left_app.
Qed.

Lemma sample_loop_spec (rs : nat -> Q) (steps : list nat) :
  forall (st : SampleState) (seen : list string),
    In (current_page st) (Dict.keys corpus) ->
    cache_ok corpus d (pages_probabilities st) ->
    pages_count st = count_all seen ->
    exists st',
      sample_loop corpus d rs steps st = Ok st' /\
      pages_count st' =
        count_all (seen ++ walk corpus d rs steps (current_page st)) /\
      In (current_page st') (Dict.keys corpus) /\
      cache_ok corpus d (pages_probabilities st').
Proof.
  induction steps as [|i steps IH]; intros st seen Hin Hcache Hcount.
  - exists st. simpl. rewrite app_nil_r. auto.
  - destruct (sample_step_spec (rs i) st Hin Hcache)
      as (st1 & Hstep & Hcur & Hin1 & Hcache1 & Hcount1).
    destruct (IH st1 (seen ++ [current_page st]) Hin1 Hcache1)
      as (st' & Hloop & Hcount' & Hin' & Hcache').
    { rewrite Hcount1, Hcount. symmetry. apply count_all_snoc. }
    exists st'. unfold sample_loop in *. simpl. rewrite Hstep. simpl.
    split; [exact Hloop|]. split; auto.
    rewrite Hcount', <- app_assoc, Hcur. reflexivity.
Qed.
End SamplerFacts.

Lemma walk_length (corpus : Corpus) (d : Q) (rs : nat -> Q)
      (steps : list nat) (cur : string) :
  length (walk corpus d rs steps cur) = length steps.
Proof.
  revert cur. induction steps; intros cur; simpl; auto.
Qed.

(** ** Visit counts *)

Lemma Zsum_app (a b : list Z) : Zsum (a ++ b) = (Zsum a + Zsum b)%Z.
Proof.
  induction a; simpl; lia.
Qed.

Lemma Zsum_set_present (k : string) (v v' : Z) (d : Dict.t Z) :
  Dict.get k d = Some v ->
  Zsum (Dict.values (Dict.set k v' d)) = (Zsum (Dict.values d) - v + v')%Z.
Proof.
  induction d as [|[k0 v0] d IH]; simpl; [discriminate|].
  destruct (String.eqb k k0); simpl.
  - intros [= ->]. lia.
  - intros H. rewrite (IH H). lia.
Qed.

Lemma Zsum_set_absent (k : string) (v' : Z) (d : Dict.t Z) :
  Dict.get k d = None ->
  Zsum (Dict.values (Dict.set k v' d)) = (Zsum (Dict.values d) + v')%Z.
Proof.
  intros H. apply get_None_notin in H. rewrite set_fresh by auto.
  unfold Dict.values. rewrite map_app, Zsum_app. simpl. lia.
Qed.

Lemma get_count_visit (q cur : string) (counts : Dict.t Z) :
  Dict.get q (count_visit counts cur) =
  if string_dec q cur
  then Some (match Dict.get cur counts with
             | Some v => (v + 1)%Z
             | None => 1%Z
             end)
  else Dict.get q counts.
Proof.
  unfold count_visit. destruct (string_dec q cur) as [->|Hne].
  - destruct (Dict.get cur counts); apply get_set_same.
  - destruct (Dict.get cur counts); now apply get_set_other.
Qed.

Lemma NoDup_count_all (trace : list string) :
  NoDup (Dict.keys (count_all trace)).
Proof.
  induction trace as [|cur trace IH] using rev_ind.
  - constructor.
  - unfold count_all in *. rewrite fold_left_app. simpl.
    unfold count_visit at 1.
    destruct (Dict.get cur (fold_left count_visit trace []));
      now apply NoDup_keys_set.
Qed.

Lemma Zsum_count_all (trace : list string) :
  Zsum (Dict.values (count_all trace)) = Z.of_nat (length trace).
Proof.
  induction trace as [|cur trace IH] using rev_ind.
  - reflexivity.
  - unfold count_all in *. rewrite fold_left_app, length_app. simpl.
    unfold count_visit at 1.
    destruct (Dict.get cur (fold_left count_visit trace [])) eqn:E.
    + rewrite (Zsum_set_present _ _ _ _ E), IH. lia.
    + rewrite (Zsum_set_absent _ _ _ E), IH. lia.
Qed.

Lemma get_count_all (trace : list string) (q : string) :
  Dict.get q (count_all trace) =
  if (count_occ string_dec trace q =? 0)%nat then None
  else Some (visits trace q).
Proof.
  unfold visits. induction trace as [|cur trace IH] using rev_ind.
  - reflexivity.
  - unfold count_all in *. rewrite fold_left_app. simpl.
    rewrite get_count_visit, count_occ_app. simpl.
    destruct (string_dec q cur) as [->|Hne].
    + destruct (string_dec cur cur); [|congruence].
      rewrite IH.
      destruct (count_occ string_dec trace cur =? 0)%nat eqn:E.
      * apply Nat.eqb_eq in E. rewrite E. reflexivity.
      * replace (count_occ string_dec trace cur + 1 =? 0)%nat with false
          by (symmetry; apply Nat.eqb_neq; lia).
        f_equal. lia.
    + destruct (string_dec cur q); [congruence|].
      rewrite IH, Nat.add_0_r. reflexivity.
Qed.

Lemma in_keys_count_all (trace : list string) (q : string) :
  In q (Dict.keys (count_all trace)) <-> In q trace.
Proof.
  rewrite (count_occ_In string_dec trace). split.
  - intros H. apply in_keys_get in H as [v Hv].
    rewrite get_count_all in Hv.
    destruct (count_occ string_dec trace q =? 0)%nat eqn:E; [discriminate|].
    apply Nat.eqb_neq in E. lia.
  - intros H. apply get_Some_in with (v := visits trace q).
    rewrite get_count_all.
    replace (count_occ string_dec trace q =? 0)%nat with false
      by (symmetry; apply Nat.eqb_neq; lia).
    reflexivity.
Qed.

(** ** The output loop of the sampler *)

Lemma output_ranks_of_eq (counts : Dict.t Z) (n : Z) :
  NoDup (Dict.keys counts) -> n <> 0%Z ->
  output_ranks_of counts n =
  Ok (map (fun q => (q, rank_of counts n q)) (Dict.keys counts)).
Proof.
  intros Hnd Hn. unfold output_ranks_of.
  rewrite (tabulate_loop _ (rank_of counts n)); auto.
  intros o k Hk. apply in_keys_get in Hk as [v Hv].
  rewrite (getitem_Ok _ _ _ Hv). simpl.
  rewrite true_div_Ok by exact Hn. simpl.
  unfold rank_of. now rewrite Hv.
Qed.

Lemma lookup_all_values (counts : Dict.t Z) :
  NoDup (Dict.keys counts) ->
  map (fun k => match Dict.get k counts with Some v => v | None => 0%Z end)
      (Dict.keys counts) = Dict.values counts.
Proof.
  induction counts as [|[k v] counts IH]; simpl; intros Hnd; auto.
  inversion Hnd as [|? ? Hk Hnd']; subst.
  rewrite String.eqb_refl. f_equal.
  rewrite <- (IH Hnd'). apply map_ext_in. intros q Hq.
  destruct (String.eqb q k) eqn:E; auto.
  apply String.eqb_eq in E. subst. contradiction.
Qed.

Lemma Qsum_scaled (n : Q) (zs : list Z) :
  ~ n == 0 ->
  Qsum (map (fun z => inject_Z z / n) zs) == inject_Z (Zsum zs) / n.
Proof.
  intros Hn. induction zs as [|z zs IH].
  - simpl. field. exact Hn.
  - cbn [map Qsum fold_right Zsum].
    fold (Qsum (map (fun z => inject_Z z / n) zs)). fold (Zsum zs).
    rewrite IH, inject_Z_plus. field. exact Hn.
Qed.

Lemma Qsum_rank_of (counts : Dict.t Z) (n : Z) :
  NoDup (Dict.keys counts) -> n <> 0%Z ->
  Qsum (map (rank_of counts n) (Dict.keys counts)) ==
  inject_Z (Zsum (Dict.values counts)) / inject_Z n.
Proof.
  intros Hnd Hn. rewrite <- (lookup_all_values counts Hnd).
  rewrite <- Qsum_scaled by (now apply inject_Z_nonzero).
  rewrite map_map. reflexivity.
Qed.

(** The sampler in closed form: the returned map tabulates the visit
    counts of the walk, divided by [n]. *)
Lemma sample_pagerank_eq (corpus : Corpus) (d : Q) (n : Z) (c : nat)
      (rs : nat -> Q) :
  NoDup (Dict.keys corpus) -> corpus <> [] -> (1 <= n)%Z ->
  exists start,
    random_choice c (Dict.keys corpus) = Ok start /\
    In start (Dict.keys corpus) /\
    sample_pagerank corpus d n c rs =
    Ok (map (fun q => (q, rank_of (count_all (walk corpus d rs (range n) start))
                                  n q))
            (Dict.keys (count_all (walk corpus d rs (range n) start)))).
Proof.
  intros Hnd Hne Hn.
  destruct (random_choice_Ok c (Dict.keys corpus)) as (start & Hstart & Hin).
  { destruct corpus; [congruence | discriminate]. }
  exists start. split; auto. split; auto.
  unfold sample_pagerank. rewrite Hstart. cbn [bind].
  destruct (sample_loop_spec corpus d Hnd rs (range n)
              {| current_page := start;
                 pages_probabilities := [];
                 pages_count := [] |} [])
    as (st' & Hloop & Hcount & _ & _); auto.
  - intros q dist Hq. discriminate.
  - rewrite Hloop. cbn [bind]. simpl in Hcount. rewrite Hcount.
    apply output_ranks_of_eq; [apply NoDup_count_all | lia].
Qed.

(** C9: for a non-empty graph and [n >= 1], the sampler returns a map
    with an entry exactly for the pages visited in the [n]-step walk,
    each holding (visit count)/n; the values sum to 1; with [n = 1] the
    map has the single entry of the starting page, with value 1. *)
Theorem sample_pagerank_visit_frequencies
        (corpus : Corpus) (d : Q) (n : Z) (c : nat) (rs : nat -> Q) :
  NoDup (Dict.keys corpus) -> corpus <> [] -> (1 <= n)%Z ->
  exists start out,
    random_choice c (Dict.keys corpus) = Ok start /\
    sample_pagerank corpus d n c rs = Ok out /\
    let visited := walk corpus d rs (range n) start in
    Z.of_nat (length visited) = n /\
    NoDup (Dict.keys out) /\
    (forall q, In q (Dict.keys out) <-> In q visited) /\
    (forall q, In q visited ->
               exists v, Dict.get q out = Some v /\
                         v == inject_Z (visits visited q) / inject_Z n) /\
    Qsum (Dict.values out) == 1 /\
    (n = 1%Z -> exists v, out = [(start, v)] /\ v == 1).
Proof.
  intros Hnd Hne Hn.
  destruct (sample_pagerank_eq corpus d n c rs Hnd Hne Hn)
    as (start & Hstart & Hin & Heq).
  exists start. eexists. split; [exact Hstart|]. split; [exact Heq|].
  cbv zeta. set (visited := walk corpus d rs (range n) start) in *.
  assert (Hlen : Z.of_nat (length visited) = n).
  { unfold visited. rewrite walk_length. unfold range.
    rewrite length_seq. lia. }
  assert (Hn0 : ~ inject_Z n == 0) by (apply inject_Z_nonzero; lia).
  split; [exact Hlen|].
  rewrite keys_tabulate, values_tabulate.
  split; [apply NoDup_count_all|].
  split; [intros q; apply in_keys_count_all|].
  split; [|split].
  - intros q Hq. eexists. split.
    + apply get_tabulate. now apply in_keys_count_all.
    + unfold rank_of. rewrite get_count_all.
      apply (count_occ_In string_dec) in Hq.
      replace (count_occ string_dec visited q =? 0)%nat with false
        by (symmetry; apply Nat.eqb_neq; lia).
      reflexivity.
  - rewrite Qsum_rank_of by (try apply NoDup_count_all; lia).
    rewrite Zsum_count_all, Hlen. field. exact Hn0.
  - intros ->. unfold visited. change (range 1) with [0%nat]. cbn.
    unfold rank_of. cbn. rewrite String.eqb_refl.
    eexists. split; [reflexivity|]. reflexivity.
Qed.

Lemma sample_pagerank_visit_frequencies_witness :
  exists start out,
    random_choice 0 (Dict.keys corpus_abc) = Ok start /\
    sample_pagerank corpus_abc (85 # 100) 1 0 (fun _ => 1 # 2) = Ok out /\
    let visited := walk corpus_abc (85 # 100) (fun _ => 1 # 2) (range 1) start in
    Z.of_nat (length visited) = 1%Z /\
    NoDup (Dict.keys out) /\
    (forall q, In q (Dict.keys out) <-> In q visited) /\
    (forall q, In q visited ->
               exists v, Dict.get q out = Some v /\
                         v == inject_Z (visits visited q) / inject_Z 1) /\
    Qsum (Dict.values out) == 1 /\
    (1%Z = 1%Z -> exists v, out = [(start, v)] /\ v == 1).
Proof.
  assert (Hne : corpus_abc <> []) by discriminate.
  assert (Hn : (1 <= 1)%Z) by lia.
  exact (sample_pagerank_visit_frequencies corpus_abc (85 # 100) 1 0
           (fun _ => 1 # 2) NoDup_keys_abc Hne Hn).
Defined.

(** The selection in exact arithmetic: on a well-formed graph, for every
    draw [r] in [0,1) the selection loop over rational probabilities
    chooses a page, since the running sum ends at 1, above [r].  In
    binary64 the running sum can end below 1. *)
Theorem selection_always_chooses
        (corpus : Corpus) (d r : Q) (st : SampleState) :
  wf_corpus corpus -> closed_corpus corpus ->
  In (current_page st) (Dict.keys corpus) ->
  cache_ok corpus d (pages_probabilities st) ->
  0 <= r -> r < 1 ->
  exists dist key st',
    transition_model corpus (current_page st) d = Ok dist /\
    select_next dist (Dict.keys dist) 0 r = Ok (Some key) /\
    In key (Dict.keys corpus) /\
    sample_step corpus d r st = Ok st' /\
    current_page st' = key /\
    cache_ok corpus d (pages_probabilities st').
Proof.
  intros Hwf Hclosed Hin Hcache Hr0 Hr1.
  destruct (transition_model_on_page corpus d (proj1 Hwf) _ Hin)
    as (links & Hlinks & Htm).
  destruct (select_next_chooses (tm_dist corpus links d)
              (Dict.keys (tm_dist corpus links d)) 0 r)
    as (key & Hsel & Hkey); auto.
  { unfold tm_dist. rewrite keys_tabulate, value_of_tabulate.
    pose proof (tm_dist_sum corpus _ links d Hwf Hclosed Hlinks) as Hsum.
    unfold tm_dist in Hsum. rewrite values_tabulate in Hsum.
    rewrite Hsum. lra. }
  destruct (sample_step_spec corpus d (proj1 Hwf) r st Hin Hcache)
    as (st' & Hstep & Hcur & _ & Hcache' & _).
  exists (tm_dist corpus links d), key, st'.
  split; [exact Htm|]. split; [exact Hsel|].
  split; [unfold tm_dist in Hkey; now rewrite keys_tabulate in Hkey|].
  split; [exact Hstep|]. split; [|exact Hcache'].
  rewrite Hcur. unfold next_page. now rewrite Htm, Hsel.
Qed.

Lemma selection_always_chooses_witness :
  exists dist key st',
    transition_model corpus_abc "A" (85 # 100) = Ok dist /\
    select_next dist (Dict.keys dist) 0 (1 # 2) = Ok (Some key) /\
    In key (Dict.keys corpus_abc) /\
    sample_step corpus_abc (85 # 100) (1 # 2)
      {| current_page := "A"; pages_probabilities := []; pages_count := [] |}
    = Ok st' /\
    current_page st' = key /\
    cache_ok corpus_abc (85 # 100) (pages_probabilities st').
Proof.
  assert (Hin : In "A" (Dict.keys corpus_abc)) by (simpl; auto).
  assert (Hcache : cache_ok corpus_abc (85 # 100) [])
    by (intros q dist H; discriminate).
  assert (Hr0 : 0 <= 1 # 2) by discriminate.
  assert (Hr1 : (1 # 2) < 1) by reflexivity.
  exact (selection_always_chooses corpus_abc (85 # 100) (1 # 2)
           {| current_page := "A"; pages_probabilities := [];
              pages_count := [] |}
           wf_corpus_abc closed_corpus_abc Hin Hcache Hr0 Hr1).
Defined.

(** C7: on the empty graph each of the three functions raises. *)
Theorem empty_graph_raises
        (page : string) (d : Q) (n : Z) (c : nat) (rs : nat -> Q)
        (fuel : nat) :
  transition_model [] page d = Raise KeyError /\
  sample_pagerank [] d n c rs = Raise IndexError /\
  iterate_pagerank fuel [] d = Some (Raise ZeroDivisionError).
Proof.
  repeat split.
Qed.

(** C8, as stated, fails: a sample count of zero and a damping factor
    of 2 are both accepted, and a map is returned. *)
Lemma sample_pagerank_accepts_invalid_parameters :
  sample_pagerank corpus_abc (85 # 100) 0 0 (fun _ => 1 # 2) = Ok [] /\
  ~ (0 <= 2 <= 1) /\
  exists out, sample_pagerank corpus_abc 2 1 0 (fun _ => 1 # 2) = Ok out.
Proof.
  split; [reflexivity|]. split.
  - intros [_ H]. apply H. reflexivity.
  - eexists. vm_compute. reflexivity.
Qed.

(** C8 (amended): the sampler checks neither parameter.  On a non-empty
    graph, a sample count below 1 gives the empty map, and every damping
    factor, inside [0,1] or not, gives a map of visit frequencies that
    sum to 1 when [n >= 1]. *)
Theorem sample_pagerank_no_validation
        (corpus : Corpus) (d : Q) (n : Z) (c : nat) (rs : nat -> Q) :
  NoDup (Dict.keys corpus) -> corpus <> [] ->
  exists out,
    sample_pagerank corpus d n c rs = Ok out /\
    if (n <? 1)%Z then out = [] else Qsum (Dict.values out) == 1.
Proof.
  intros Hnd Hne. destruct (n <? 1)%Z eqn:En.
  - apply Z.ltb_lt in En. exists []. split; auto.
    destruct (random_choice_Ok c (Dict.keys corpus)) as (start & Hstart & _).
    { destruct corpus; [congruence | discriminate]. }
    unfold sample_pagerank. rewrite Hstart. cbn [bind].
    unfold range. replace (Z.to_nat n) with 0%nat by lia. reflexivity.
  - apply Z.ltb_ge in En.
    destruct (sample_pagerank_eq corpus d n c rs Hnd Hne En)
      as (start & _ & _ & Heq).
    eexists. split; [exact Heq|].
    rewrite values_tabulate.
    rewrite Qsum_rank_of by (try apply NoDup_count_all; lia).
    rewrite Zsum_count_all, walk_length. unfold range. rewrite length_seq.
    rewrite Z2Nat.id by lia. field. apply inject_Z_nonzero. lia.
Qed.

Lemma sample_pagerank_no_validation_witness :
  exists out,
    sample_pagerank corpus_abc 2 (-3) 0 (fun _ => 1 # 2) = Ok out /\
    if (-3 <? 1)%Z then out = [] else Qsum (Dict.values out) == 1.
Proof.
  assert (Hne : corpus_abc <> []) by discriminate.
  exact (sample_pagerank_no_validation corpus_abc 2 (-3) 0 (fun _ => 1 # 2)
           NoDup_keys_abc Hne).
Defined.

(** ** The iterative solver *)

Lemma for_each_invariant {A S : Type} (P : S -> Prop) (xs : list A)
      (body : S -> A -> result S) :
  (forall s x s', In x xs -> P s -> body s x = Ok s' -> P s') ->
  forall s s', P s -> for_each xs s body = Ok s' -> P s'.
Proof.
  induction xs as [|x xs IH]; intros Hbody s s' Hs Hrun; simpl in Hrun.
  - now injection Hrun as <-.
  - destruct (body s x) as [s1|e] eqn:E; simpl in Hrun; [|discriminate].
    apply (IH (fun s0 y s0' Hy => Hbody s0 y s0' (or_intror Hy)) s1 s'); auto.
    apply (Hbody s x s1); auto. now left.
Qed.

Lemma in_set_add (x y : string) (s : pyset) :
  In y (set_add x s) -> y = x \/ In y s.
Proof.
  unfold set_add. destruct (in_set x s); auto.
  rewrite in_app_iff. simpl. intuition.
Qed.

(** Every contributor recorded by the setup loop links to the page it
    is recorded for: a page without outgoing links is in no contributor
    set. *)
Lemma setup_contributors_link (corpus : Corpus) (starting_rank : Q)
      (ranks : Dict.t Q) (mentions : Dict.t pyset) :
  iterate_setup corpus starting_rank = Ok (ranks, mentions) ->
  forall q contributors p,
    Dict.get q mentions = Some contributors -> In p contributors ->
    exists links, Dict.get p corpus = Some links /\ In q links.
Proof.
  intros Hsetup.
  set (P := fun acc : Dict.t Q * Dict.t pyset =>
              forall q contributors p,
                Dict.get q (snd acc) = Some contributors ->
                In p contributors ->
                exists links, Dict.get p corpus = Some links /\ In q links).
  change (P (ranks, mentions)).
  unfold iterate_setup in Hsetup.
  eapply for_each_invariant; [| |exact Hsetup].
  - intros [rk m] page acc' _ Hacc Hbody. cbn [fst snd] in Hbody.
    unfold Dict.getitem at 1 in Hbody.
    destruct (Dict.get page corpus) as [links|] eqn:Hl; [|discriminate].
    cbn [bind] in Hbody.
    match type of Hbody with
    | (x <- ?loop ;; _) = _ => destruct loop as [m'|e] eqn:Hloop
    end; [|discriminate].
    cbn [bind] in Hbody. injection Hbody as <-. unfold P. cbn [snd].
    assert (Hinner : forall rest,
               incl rest links ->
               forall m0 m1,
                 P (rk, m0) ->
                 for_each rest m0
                   (fun pages_that_mention_pages referenced_page =>
                      if Dict.mem referenced_page pages_that_mention_pages
                      then s <- Dict.getitem referenced_page
                                  pages_that_mention_pages ;;
                           Ok (Dict.set referenced_page (set_add page s)
                                        pages_that_mention_pages)
                      else Ok (Dict.set referenced_page [page]
                                        pages_that_mention_pages)) = Ok m1 ->
                 P (rk, m1)).
    { induction rest as [|x rest IH]; intros Hincl m0 m1 Hm0 Hrun;
        simpl in Hrun.
      - now injection Hrun as <-.
      - assert (Hx : In x links) by (apply Hincl; now left).
        assert (Hrest : incl rest links)
          by (intros y Hy; apply Hincl; now right).
        unfold Dict.mem, Dict.getitem in Hrun.
        destruct (Dict.get x m0) as [s|] eqn:Hs; cbn [bind] in Hrun.
        + apply (IH Hrest _ _) in Hrun; auto.
          intros q contributors p Hq Hp. cbn [snd] in Hq.
          destruct (string_dec q x) as [->|Hne].
          * rewrite get_set_same in Hq. injection Hq as <-.
            apply in_set_add in Hp as [->|Hp]; [eauto|].
            apply (Hm0 x s p); auto.
          * rewrite get_set_other in Hq by auto.
            apply (Hm0 q contributors p); auto.
        + apply (IH Hrest _ _) in Hrun; auto.
          intros q contributors p Hq Hp. cbn [snd] in Hq.
          destruct (string_dec q x) as [->|Hne].
          * rewrite get_set_same in Hq. injection Hq as <-.
            destruct Hp as [<-|[]]. eauto.
          * rewrite get_set_other in Hq by auto.
            apply (Hm0 q contributors p); auto. }
    apply (Hinner links (incl_refl _) m m'); auto.
  - intros q contributors p Hq. discriminate.
Qed.

Lemma iterate_step_inv (corpus : Corpus) (d : Q) (mentions : Dict.t pyset)
      (st st' : IterState) :
  iterate_step corpus d mentions st = Ok st' ->
  exists q refs old,
    page_at (Dict.keys corpus) (Dict.len corpus) (current_count st) = Ok q /\
    references_of corpus d (Dict.len corpus) mentions st q = Ok refs /\
    Dict.get q (page_ranks st) = Some old /\
    ~ inject_Z (Dict.len corpus) == 0 /\
    st' = {| page_ranks :=
               Dict.set q ((1 - d) / inject_Z (Dict.len corpus) + fst refs)
                        (page_ranks st);
             current_count := (current_count st + 1)%Z;
             convergence_count :=
               if Qle_bool
                    (Qabs (old - ((1 - d) / inject_Z (Dict.len corpus)
                                  + fst refs)))
                    threshold
               then (convergence_count st + 1)%Z else 0%Z;
             reference_page := snd refs |}.
Proof.
  unfold iterate_step. intros H.
  destruct (page_at (Dict.keys corpus) (Dict.len corpus) (current_count st))
    as [q|] eqn:Hq; [|discriminate].
  cbn [bind] in H.
  destruct (references_of corpus d (Dict.len corpus) mentions st q)
    as [refs|] eqn:Hrefs; [|discriminate].
  cbn [bind] in H. unfold true_div in H.
  destruct (Qeq_bool (inject_Z (Dict.len corpus)) 0) eqn:HN; [discriminate|].
  cbn [bind] in H. unfold Dict.getitem in H.
  destruct (Dict.get q (page_ranks st)) as [old|] eqn:Hold; [|discriminate].
  cbn [bind] in H. injection H as <-.
  exists q, refs, old. repeat split; auto.
  intros E. apply Qeq_bool_iff in E. congruence.
Qed.

Section LoopFacts.
Variables (corpus : Corpus) (d : Q) (mentions : Dict.t pyset).

Let N : Z := Dict.len corpus.

Lemma reaches_first (st st1 st' : IterState) :
  converged corpus st = false ->
  iterate_step corpus d mentions st = Ok st1 ->
  reaches corpus d mentions st1 st' ->
  reaches corpus d mentions st st'.
Proof.
  intros Hc Hstep Hr. induction Hr as [|st2 st3 Hr IH Hc2 Hstep2].
  - eapply reaches_update; eauto. constructor.
  - eapply reaches_update; eauto.
Qed.

Lemma reaches_trans (st st1 st2 : IterState) :
  reaches corpus d mentions st st1 ->
  reaches corpus d mentions st1 st2 ->
  reaches corpus d mentions st st2.
Proof.
  intros H1 H2. induction H2; auto. eapply reaches_update; eauto.
Qed.

Lemma counters_bounded (st st' : IterState) :
  (0 <= current_count st)%Z ->
  (0 <= convergence_count st <= N)%Z ->
  reaches corpus d mentions st st' ->
  (0 <= current_count st')%Z /\ (0 <= convergence_count st' <= N)%Z.
Proof.
  intros Hcur Hcc Hr. induction Hr as [|st1 st2 Hr IH Hc Hstep]; auto.
  destruct IH as [IHcur IHcc].
  apply iterate_step_inv in Hstep as (q & refs & old & _ & _ & _ & _ & ->).
  cbn. unfold converged in Hc. apply Z.leb_gt in Hc. fold N in Hc.
  split; [lia|].
  destruct (Qle_bool _ threshold); lia.
Qed.

Lemma converged_iff (st : IterState) :
  (convergence_count st <= N)%Z ->
  (converged corpus st = true <-> convergence_count st = N).
Proof.
  intros Hle. unfold converged. fold N. rewrite Z.leb_le. lia.
Qed.

(** A loop that returns has reached a state in which the [break] test
    holds, and returns the ranks of that state. *)
Lemma iterate_loop_returns (fuel : nat) :
  forall (st : IterState) (r : Dict.t Q),
    iterate_loop fuel corpus d mentions st = Some (Ok r) ->
    exists st_end,
      reaches corpus d mentions st st_end /\
      converged corpus st_end = true /\
      r = page_ranks st_end.
Proof.
  induction fuel as [|fuel IH]; intros st r Hrun; simpl in Hrun.
  - destruct (converged corpus st) eqn:Hc; [|discriminate].
    injection Hrun as <-. exists st. repeat split; auto. constructor.
  - destruct (converged corpus st) eqn:Hc.
    + injection Hrun as <-. exists st. repeat split; auto. constructor.
    + destruct (iterate_step corpus d mentions st) as [st1|e] eqn:Hstep;
        [|discriminate].
      destruct (IH st1 r Hrun) as (st_end & Hr & Hend & ->).
      exists st_end. repeat split; auto.
      eapply reaches_first; eauto.
Qed.

Lemma iterate_loop_prefix (st st_mid : IterState) (r : Dict.t Q) :
  reaches corpus d mentions st st_mid ->
  (exists k, iterate_loop k corpus d mentions st_mid = Some (Ok r)) ->
  exists fuel, iterate_loop fuel corpus d mentions st = Some (Ok r).
Proof.
  intros Hr. induction Hr as [|st1 st2 Hr IH Hc Hstep]; auto.
  intros [k Hk]. apply IH. exists (S k). simpl.
  now rewrite Hc, Hstep.
Qed.

(** With enough iterations allowed, a loop that can reach a state in
    which the [break] test holds returns the ranks of that state. *)
Lemma iterate_loop_reaches (st st_end : IterState) :
  reaches corpus d mentions st st_end ->
  converged corpus st_end = true ->
  exists fuel,
    iterate_loop fuel corpus d mentions st = Some (Ok (page_ranks st_end)).
Proof.
  intros Hr Hend. apply (iterate_loop_prefix st st_end); auto.
  exists 0%nat. simpl. now rewrite Hend.
Qed.
End LoopFacts.

Lemma iterate_start_inv (corpus : Corpus) (mentions : Dict.t pyset)
      (st0 : IterState) :
  iterate_start corpus = Ok (mentions, st0) ->
  (1 <= Dict.len corpus)%Z /\
  current_count st0 = 0%Z /\
  convergence_count st0 = 0%Z /\
  reference_page st0 = None.
Proof.
  unfold iterate_start, true_div. intros H.
  destruct (Qeq_bool (inject_Z (Dict.len corpus)) 0) eqn:HN; [discriminate|].
  cbn [bind] in H.
  destruct (iterate_setup corpus (1 / inject_Z (Dict.len corpus)))
    as [acc|]; [|discriminate].
  cbn [bind] in H. injection H as <- <-. cbn. repeat split.
  unfold Dict.len in *. destruct corpus; [discriminate | simpl; lia].
Qed.

Lemma iterate_step_update (corpus : Corpus) (d : Q) (mentions : Dict.t pyset)
      (st st' : IterState) :
  iterate_step corpus d mentions st = Ok st' ->
  update_spec corpus d mentions st st'.
Proof.
  intros H.
  apply iterate_step_inv in H as (q & refs & old & Hq & Hrefs & Hold & _ & ->).
  exists q, refs, old. eexists. cbn.
  unfold page_at, list_index in Hq.
  destruct (current_count st mod Dict.len corpus <? 0)%Z; [discriminate|].
  destruct (nth_error (Dict.keys corpus)
              (Z.to_nat (current_count st mod Dict.len corpus)))
    as [q0|] eqn:E; [|discriminate].
  injection Hq as ->.
  split; [reflexivity|]. split; [exact Hrefs|]. split; [exact Hold|].
  split; [reflexivity|]. split; [reflexivity|].
  split; [apply get_set_same|].
  split; [intros q' Hne; now apply get_set_other|].
  split; reflexivity.
Qed.

(** C5: the solver updates the pages in the fixed order of the page
    list, cyclically, each update stored in place and read by the later
    ones; a counter is raised by each update whose change is at most
    0.001 and reset by any other; the loop ends exactly when the counter
    is [N]. *)
Theorem iterate_round_robin_convergence :
  (forall (corpus : Corpus) (d : Q) (mentions : Dict.t pyset)
          (st0 st : IterState),
      iterate_start corpus = Ok (mentions, st0) ->
      reaches corpus d mentions st0 st ->
      current_count st0 = 0%Z /\
      convergence_count st0 = 0%Z /\
      (0 <= current_count st)%Z /\
      (0 <= convergence_count st <= Dict.len corpus)%Z /\
      (converged corpus st = true <-> convergence_count st = Dict.len corpus) /\
      (forall fuel,
          iterate_loop (S fuel) corpus d mentions st =
          if converged corpus st then Some (Ok (page_ranks st))
          else match iterate_step corpus d mentions st with
               | Raise e => Some (Raise e)
               | Ok st' => iterate_loop fuel corpus d mentions st'
               end) /\
      (forall st',
          converged corpus st = false ->
          iterate_step corpus d mentions st = Ok st' ->
          update_spec corpus d mentions st st'))
  /\ (forall (corpus : Corpus) (d : Q) (fuel : nat) (r : Dict.t Q),
         iterate_pagerank fuel corpus d = Some (Ok r) ->
         exists mentions st0 st_end,
           iterate_start corpus = Ok (mentions, st0) /\
           reaches corpus d mentions st0 st_end /\
           convergence_count st_end = Dict.len corpus /\
           r = page_ranks st_end)
  /\ (exists mentions st0 st1 st2 a1 b2,
         iterate_start corpus_no_inbound = Ok (mentions, st0) /\
         iterate_step corpus_no_inbound (85 # 100) mentions st0 = Ok st1 /\
         iterate_step corpus_no_inbound (85 # 100) mentions st1 = Ok st2 /\
         Dict.get "A" (page_ranks st1) = Some a1 /\
         Dict.get "B" (page_ranks st2) = Some b2 /\
         b2 == (1 - (85 # 100)) / 3 + (85 # 100) * (a1 / 1) /\
         ~ b2 == (1 - (85 # 100)) / 3 + (85 # 100) * ((1 / 3) / 1))
  /\ (iterate_pagerank 1 corpus_ab (85 # 100) = None /\
      exists r,
        iterate_pagerank 2 corpus_ab (85 # 100) = Some (Ok r) /\
        dict_eqv r [("A", 1 # 2); ("B", 1 # 2)]).
Proof.
  split; [|split; [|split]].
  - intros corpus d mentions st0 st Hstart Hr.
    destruct (iterate_start_inv _ _ _ Hstart) as (HN & Hcur0 & Hcc0 & _).
    destruct (counters_bounded corpus d mentions st0 st) as [Hcur Hcc];
      auto; try lia.
    split; [exact Hcur0|]. split; [exact Hcc0|].
    split; [exact Hcur|]. split; [exact Hcc|].
    split; [apply converged_iff; lia|].
    split; [reflexivity|].
    intros st' _ Hstep. now apply iterate_step_update.
  - intros corpus d fuel r Hrun. unfold iterate_pagerank in Hrun.
    destruct (iterate_start corpus) as [[mentions st0]|e] eqn:Hstart;
      [|discriminate].
    destruct (iterate_loop_returns _ _ _ _ _ _ Hrun) as (st_end & Hr & Hend & ->).
    exists mentions, st0, st_end. repeat split; auto.
    destruct (iterate_start_inv _ _ _ Hstart) as (HN & Hcur0 & Hcc0 & _).
    destruct (counters_bounded corpus d mentions st0 st_end) as [_ Hcc];
      auto; try lia.
    apply converged_iff; auto. lia.
  - do 6 eexists.
    split; [vm_compute; reflexivity|].
    split; [vm_compute; reflexivity|].
    split; [vm_compute; reflexivity|].
    split; [vm_compute; reflexivity|].
    split; [vm_compute; reflexivity|].
    split; [vm_compute; reflexivity|].
    vm_compute. discriminate.
  - split; [reflexivity|]. eexists. split; [vm_compute; reflexivity|].
    repeat constructor; reflexivity.
Qed.

Lemma iterate_round_robin_convergence_witness :
  exists mentions st0,
    iterate_start corpus_ab = Ok (mentions, st0) /\
    reaches corpus_ab (85 # 100) mentions st0 st0 /\
    current_count st0 = 0%Z /\
    convergence_count st0 = 0%Z /\
    (0 <= current_count st0)%Z /\
    (0 <= convergence_count st0 <= Dict.len corpus_ab)%Z /\
    (converged corpus_ab st0 = true <->
     convergence_count st0 = Dict.len corpus_ab) /\
    (forall fuel,
        iterate_loop (S fuel) corpus_ab (85 # 100) mentions st0 =
        if converged corpus_ab st0 then Some (Ok (page_ranks st0))
        else match iterate_step corpus_ab (85 # 100) mentions st0 with
             | Raise e => Some (Raise e)
             | Ok st' => iterate_loop fuel corpus_ab (85 # 100) mentions st'
             end) /\
    (forall st',
        converged corpus_ab st0 = false ->
        iterate_step corpus_ab (85 # 100) mentions st0 = Ok st' ->
        update_spec corpus_ab (85 # 100) mentions st0 st').
Proof.
  eexists. eexists. split; [reflexivity|]. split; [constructor|].
  exact (proj1 iterate_round_robin_convergence corpus_ab (85 # 100) _ _ _
               eq_refl (reaches_here _ _ _ _)).
Defined.

(** C2: the code at a page without inbound links.  On
    [{A: {B}, B: {A}, C: {A}}] the third update is that of [C], to which
    no page links; the code adds to the teleport term the rank of [A],
    the page left in [reference_page] by the update of [B], divided by
    [N].  When such a page comes first, as [A] in
    [{A: {B,C}, B: {C}, C: {B}}], [reference_page] is still unbound and
    the call raises. *)
Theorem no_inbound_reads_leftover :
  (exists mentions st0 st1 st2 st3 rA v,
      iterate_start corpus_no_inbound = Ok (mentions, st0) /\
      converged corpus_no_inbound st0 = false /\
      iterate_step corpus_no_inbound (85 # 100) mentions st0 = Ok st1 /\
      converged corpus_no_inbound st1 = false /\
      iterate_step corpus_no_inbound (85 # 100) mentions st1 = Ok st2 /\
      converged corpus_no_inbound st2 = false /\
      iterate_step corpus_no_inbound (85 # 100) mentions st2 = Ok st3 /\
      page_at (Dict.keys corpus_no_inbound) (Dict.len corpus_no_inbound)
              (current_count st2) = Ok "C" /\
      Dict.mem "C" mentions = false /\
      reference_page st2 = Some "A" /\
      Dict.get "A" (page_ranks st2) = Some rA /\
      Dict.get "C" (page_ranks st3) = Some v /\
      v == (1 - (85 # 100)) / 3 + (85 # 100) * (rA / 3) /\
      ~ v == (1 - (85 # 100)) / 3)
  /\ (forall fuel,
         iterate_pagerank (S fuel) corpus_abc (85 # 100)
         = Some (Raise UnboundLocalError)).
Proof.
  split.
  - do 7 eexists.
    repeat (split; [vm_compute; reflexivity|]).
    vm_compute. discriminate.
  - intros fuel. reflexivity.
Qed.

(** C3: the code at a graph with a page without outgoing links.  On
    [{A: {B,C,D}, B: {A}, C: {A}, D: {}}] the page [D] is in no
    contributor set, and the update of [A] adds the ranks of [B] and [C]
    only: nothing of the rank of [D] reaches [A]. *)
Theorem dangling_rank_not_redistributed :
  exists mentions st0 st1 contributors rB rC rD v,
    iterate_start corpus_dangling_d = Ok (mentions, st0) /\
    Dict.len corpus_dangling_d = 4%Z /\
    Dict.get "D" corpus_dangling_d = Some [] /\
    Forall (fun kv => ~ In "D" (snd kv)) mentions /\
    Dict.get "A" mentions = Some contributors /\
    contributors = ["B"; "C"] /\
    Dict.get "B" (page_ranks st0) = Some rB /\
    Dict.get "C" (page_ranks st0) = Some rC /\
    Dict.get "D" (page_ranks st0) = Some rD /\
    0 < rD /\
    page_at (Dict.keys corpus_dangling_d) (Dict.len corpus_dangling_d)
            (current_count st0) = Ok "A" /\
    iterate_step corpus_dangling_d (85 # 100) mentions st0 = Ok st1 /\
    Dict.get "A" (page_ranks st1) = Some v /\
    v == (1 - (85 # 100)) / 4 + (85 # 100) * (rB / 1 + rC / 1) /\
    ~ v == (1 - (85 # 100)) / 4 + (85 # 100) * (rB / 1 + rC / 1 + rD / 4).
Proof.
  do 8 eexists.
  split; [vm_compute; reflexivity|].
  split; [reflexivity|]. split; [reflexivity|].
  split.
  { repeat apply Forall_cons; try apply Forall_nil; simpl;
      intuition discriminate. }
  repeat (split; [vm_compute; reflexivity|]).
  vm_compute. discriminate.
Qed.

(** * Further properties *)

(** ** Sets *)

Lemma in_set_add_iff (x y : string) (s : pyset) :
  In y (set_add x s) <-> y = x \/ In y s.
Proof.
  unfold set_add. destruct (in_set x s) eqn:E.
  - apply in_set_true_iff in E. split; [auto|]. intros [->|H]; auto.
  - rewrite in_app_iff. simpl. intuition.
Qed.

Lemma NoDup_set_add (x : string) (s : pyset) :
  NoDup s -> NoDup (set_add x s).
Proof.
  intros H. unfold set_add. destruct (in_set x s) eqn:E; auto.
  apply in_set_false_iff in E. apply NoDup_app; auto.
  - constructor; [intros [] | constructor].
  - intros y Hy [->|[]]. contradiction.
Qed.

Lemma in_fold_set_add (xs : list string) (s : pyset) (y : string) :
  In y (fold_left (fun s x => set_add x s) xs s) <-> In y xs \/ In y s.
Proof.
  revert s. induction xs as [|x xs IH]; intros s; simpl.
  - tauto.
  - rewrite IH, in_set_add_iff. intuition.
Qed.

Lemma NoDup_fold_set_add (xs : list string) (s : pyset) :
  NoDup s -> NoDup (fold_left (fun s x => set_add x s) xs s).
Proof.
  revert s. induction xs as [|x xs IH]; intros s H; simpl; auto.
  apply IH. now apply NoDup_set_add.
Qed.

Lemma in_set_of_list (xs : list string) (y : string) :
  In y (set_of_list xs) <-> In y xs.
Proof.
  unfold set_of_list. rewrite in_fold_set_add. simpl. tauto.
Qed.

Lemma NoDup_set_of_list (xs : list string) : NoDup (set_of_list xs).
Proof.
  apply NoDup_fold_set_add. constructor.
Qed.

Lemma in_set_discard (x y : string) (s : pyset) :
  In y (set_discard x s) <-> In y s /\ y <> x.
Proof.
  unfold set_discard. rewrite filter_In, negb_true_iff, String.eqb_neq.
  tauto.
Qed.

(** ** More on dictionaries *)

Lemma in_get_NoDup {V : Type} (k : string) (v : V) (d : Dict.t V) :
  NoDup (Dict.keys d) -> In (k, v) d -> Dict.get k d = Some v.
Proof.
  induction d as [|[k0 v0] d IH]; simpl; intros Hnd Hin; [tauto|].
  inversion Hnd as [|? ? Hk Hnd']; subst.
  destruct Hin as [[= -> ->]|Hin].
  - now rewrite String.eqb_refl.
  - destruct (String.eqb k k0) eqn:E; auto.
    apply String.eqb_eq in E. subst. exfalso. apply Hk.
    change k0 with (fst (k0, v)). now apply in_map.
Qed.

Lemma in_keys_set_iff {V : Type} (k q : string) (v : V) (d : Dict.t V) :
  In q (Dict.keys (Dict.set k v d)) <-> q = k \/ In q (Dict.keys d).
Proof.
  rewrite keys_set. destruct (Dict.mem k d) eqn:E.
  - apply mem_true_iff in E. split; auto. intros [->|H]; auto.
  - rewrite in_app_iff. simpl. intuition.
Qed.

Lemma keys_set_present {V : Type} (k : string) (v : V) (d : Dict.t V) :
  In k (Dict.keys d) -> Dict.keys (Dict.set k v d) = Dict.keys d.
Proof.
  intros H. rewrite keys_set. apply mem_true_iff in H. now rewrite H.
Qed.

Lemma mem_same_keys {V W : Type} (k : string) (d : Dict.t V) (d' : Dict.t W) :
  Dict.keys d = Dict.keys d' -> Dict.mem k d = Dict.mem k d'.
Proof.
  intros H. destruct (Dict.mem k d') eqn:E.
  - apply mem_true_iff. rewrite H. now apply mem_true_iff.
  - apply mem_false_iff. rewrite H. now apply mem_false_iff.
Qed.

(** ** crawl *)

Section CrawlFacts.
Variable findall : string -> list string.

Let read_entry (pages : Dict.t pyset) (entry : string * string) :=
  let filename := fst entry in
  if negb (endswith filename ".html") then pages
  else Dict.set filename
                (set_discard filename (set_of_list (findall (snd entry))))
                pages.

Lemma crawl_read_snoc (directory : list (string * string))
      (entry : string * string) :
  crawl_read findall (directory ++ [entry]) =
  read_entry (crawl_read findall directory) entry.
Proof.
  unfold crawl_read. now rewrite fold_left_app.
Qed.

Lemma NoDup_keys_crawl_read (directory : list (string * string)) :
  NoDup (Dict.keys (crawl_read findall directory)).
Proof.
  induction directory as [|e directory IH] using rev_ind.
  - constructor.
  - rewrite crawl_read_snoc. unfold read_entry.
    destruct (negb (endswith (fst e) ".html")); auto.
    now apply NoDup_keys_set.
Qed.

Lemma in_keys_crawl_read (directory : list (string * string)) (k : string) :
  In k (Dict.keys (crawl_read findall directory)) <->
  In k (map fst directory) /\ endswith k ".html" = true.
Proof.
  induction directory as [|e directory IH] using rev_ind.
  - simpl. tauto.
  - rewrite crawl_read_snoc, map_app, in_app_iff. unfold read_entry. simpl.
    destruct (endswith (fst e) ".html") eqn:E; simpl.
    + rewrite in_keys_set_iff, IH. split.
      * intros [->|[H1 H2]]; auto.
      * intros [[H|[H|[]]] H2]; [right; auto | left; auto].
    + rewrite IH. split; [tauto|].
      intros [[H|[H|[]]] H2]; auto. subst. congruence.
Qed.

Lemma get_crawl_read (directory : list (string * string))
      (filename contents : string) :
  NoDup (map fst directory) ->
  In (filename, contents) directory ->
  endswith filename ".html" = true ->
  Dict.get filename (crawl_read findall directory) =
  Some (set_discard filename (set_of_list (findall contents))).
Proof.
  induction directory as [|e directory IH] using rev_ind; [simpl; tauto|].
  rewrite map_app. simpl. intros Hnd Hin Hhtml.
  apply NoDup_remove in Hnd as [Hnd Hfresh]. rewrite app_nil_r in *.
  rewrite crawl_read_snoc. unfold read_entry.
  apply in_app_iff in Hin as [Hin|[Heq|[]]].
  - assert (Hne : filename <> fst e).
    { intros ->. apply Hfresh.
      change (fst e) with (fst (fst e, contents)). now apply in_map. }
    destruct (negb (endswith (fst e) ".html")); auto.
    rewrite get_set_other by auto. auto.
  - subst e. simpl. rewrite Hhtml. simpl. apply get_set_same.
Qed.

(** The second loop, from any point of the iteration. *)
Lemma crawl_filter_loop (pages0 : Dict.t pyset) (ks : list string) :
  forall pages,
    NoDup ks ->
    (forall k, In k ks -> In k (Dict.keys pages)) ->
    Dict.keys pages = Dict.keys pages0 ->
    exists final,
      for_each ks pages
        (fun pages filename =>
           s <- Dict.getitem filename pages ;;
           Ok (Dict.set filename
                 (set_of_list (filter (fun link => Dict.mem link pages) s))
                 pages)) = Ok final /\
      Dict.keys final = Dict.keys pages0 /\
      (forall k, In k ks ->
                 exists s,
                   Dict.get k pages = Some s /\
                   Dict.get k final =
                   Some (set_of_list
                           (filter (fun link => Dict.mem link pages0) s))) /\
      (forall k, ~ In k ks -> Dict.get k final = Dict.get k pages).
Proof.
  induction ks as [|k ks IH]; intros pages Hnd Hin Hkeys.
  - exists pages. simpl. repeat split; auto. intros k [].
  - inversion Hnd as [|? ? Hk Hnd']; subst.
    destruct (in_keys_get k pages) as [s Hs]; [apply Hin; now left|].
    simpl. rewrite (getitem_Ok _ _ _ Hs). cbn [bind].
    rewrite (filter_ext _ (fun link => Dict.mem link pages0))
      by (intros l; now apply mem_same_keys).
    set (pages1 :=
           Dict.set k
             (set_of_list (filter (fun link => Dict.mem link pages0) s))
             pages).
    destruct (IH pages1 Hnd') as (final & Hrun & Hkf & Hin_f & Hout_f).
    { intros q Hq. apply in_keys_set_iff. right. apply Hin. now right. }
    { etransitivity; [|exact Hkeys].
      apply keys_set_present. apply Hin. now left. }
    exists final. split; [exact Hrun|]. split; [exact Hkf|]. split.
    + intros q [<-|Hq].
      * exists s. split; auto. rewrite (Hout_f k Hk).
        apply get_set_same.
      * destruct (Hin_f q Hq) as (s' & Hs' & Hfinal).
        exists s'. split; auto.
        unfold pages1 in Hs'. rewrite get_set_other in Hs'; auto.
        intros ->. contradiction.
    + intros q Hq. rewrite Hout_f by (intros H; apply Hq; now right).
      apply get_set_other. intros ->. apply Hq. now left.
Qed.

(** [crawl] never raises; its result has the keys of the first loop
    and, for each of them, the links of the first loop that are keys. *)
Lemma crawl_eq (directory : list (string * string)) :
  exists corpus,
    crawl findall directory = Ok corpus /\
    Dict.keys corpus = Dict.keys (crawl_read findall directory) /\
    forall k, In k (Dict.keys corpus) ->
      exists s,
        Dict.get k (crawl_read findall directory) = Some s /\
        Dict.get k corpus =
        Some (set_of_list
                (filter (fun link =>
                           Dict.mem link (crawl_read findall directory)) s)).
Proof.
  destruct (crawl_filter_loop (crawl_read findall directory)
              (Dict.keys (crawl_read findall directory))
              (crawl_read findall directory))
    as (final & Hrun & Hkeys & Hin & _); auto.
  - apply NoDup_keys_crawl_read.
  - exists final. split; [exact Hrun|]. split; [exact Hkeys|].
    intros k Hk. apply Hin. now rewrite <- Hkeys.
Qed.
End CrawlFacts.

Lemma crawl_read_no_self (findall : string -> list string)
      (directory : list (string * string)) (k : string) (s : pyset) :
  Dict.get k (crawl_read findall directory) = Some s -> ~ In k s.
Proof.
  revert s. induction directory as [|e directory IH] using rev_ind;
    intros s; [discriminate|].
  unfold crawl_read in *. rewrite fold_left_app. simpl.
  destruct (negb (endswith (fst e) ".html")); auto.
  destruct (string_dec k (fst e)) as [->|Hne].
  - rewrite get_set_same. intros [= <-] H.
    apply in_set_discard in H. tauto.
  - rewrite get_set_other by auto. auto.
Qed.

(** X1: [crawl] does not raise, and the pages of the corpus are the
    files of the directory whose name ends in [.html], each once. *)
Theorem crawl_pages (findall : string -> list string)
        (directory : list (string * string)) :
  exists corpus,
    crawl findall directory = Ok corpus /\
    NoDup (Dict.keys corpus) /\
    forall k, In k (Dict.keys corpus) <->
              In k (map fst directory) /\ endswith k ".html" = true.
Proof.
  destruct (crawl_eq findall directory) as (corpus & Hrun & Hkeys & _).
  exists corpus. split; [exact Hrun|]. rewrite Hkeys. split.
  - apply NoDup_keys_crawl_read.
  - intros k. apply in_keys_crawl_read.
Qed.

(** What the second loop leaves in an entry of the corpus. *)
Lemma crawl_entry (findall : string -> list string)
      (directory : list (string * string)) (corpus : Corpus) :
  crawl findall directory = Ok corpus ->
  NoDup (Dict.keys corpus) /\
  Dict.keys corpus = Dict.keys (crawl_read findall directory) /\
  forall k v, In (k, v) corpus ->
    exists s,
      Dict.get k (crawl_read findall directory) = Some s /\
      v = set_of_list
            (filter (fun link => Dict.mem link (crawl_read findall directory))
                    s).
Proof.
  intros Hcrawl.
  destruct (crawl_eq findall directory) as (corpus' & Hrun & Hkeys & Hval).
  rewrite Hcrawl in Hrun. injection Hrun as <-.
  assert (Hnd : NoDup (Dict.keys corpus)).
  { rewrite Hkeys. apply NoDup_keys_crawl_read. }
  split; [exact Hnd|]. split; [exact Hkeys|].
  intros k v Hin.
  destruct (Hval k) as (s & Hs & Hget).
  - change k with (fst (k, v)). now apply in_map.
  - exists s. split; auto.
    rewrite (in_get_NoDup k v corpus Hnd Hin) in Hget. congruence.
Qed.

Lemma crawl_wf_closed (findall : string -> list string)
      (directory : list (string * string)) (corpus : Corpus) :
  crawl findall directory = Ok corpus ->
  wf_corpus corpus /\ closed_corpus corpus.
Proof.
  intros Hcrawl.
  destruct (crawl_entry findall directory corpus Hcrawl)
    as (Hnd & Hkeys & Hentry).
  split.
  - split; auto. apply Forall_forall. intros [k v] Hin.
    destruct (Hentry k v Hin) as (s & _ & ->). apply NoDup_set_of_list.
  - apply Forall_forall. intros [k v] Hin q Hq.
    destruct (Hentry k v Hin) as (s & _ & ->). simpl in Hq.
    apply in_set_of_list, filter_In in Hq as [_ Hq].
    rewrite Hkeys. now apply mem_true_iff.
Qed.

(** X2: the corpus returned by [crawl] is a well-formed graph: keys
    and set elements are unique, every link points to a page of the
    corpus, and no page links to itself. *)
Theorem crawl_graph_invariant (findall : string -> list string)
        (directory : list (string * string)) :
  exists corpus,
    crawl findall directory = Ok corpus /\
    wf_corpus corpus /\
    closed_corpus corpus /\
    forall page links,
      Dict.get page corpus = Some links -> ~ In page links.
Proof.
  destruct (crawl_eq findall directory) as (corpus & Hrun & _).
  destruct (crawl_wf_closed findall directory corpus Hrun) as [Hwf Hclosed].
  destruct (crawl_entry findall directory corpus Hrun) as (_ & _ & Hentry).
  exists corpus. split; [exact Hrun|]. split; [exact Hwf|].
  split; [exact Hclosed|].
  intros page links Hget Hself.
  destruct (Hentry page links (get_in_corpus _ _ _ Hget)) as (s & Hs & ->).
  apply in_set_of_list, filter_In in Hself as [Hself _].
  exact (crawl_read_no_self _ _ _ _ Hs Hself).
Qed.

(** X3: the links of a page in the corpus are the targets found in its
    contents that are other [.html] files of the directory. *)
Theorem crawl_links (findall : string -> list string)
        (directory : list (string * string)) (filename contents : string) :
  NoDup (map fst directory) ->
  In (filename, contents) directory ->
  endswith filename ".html" = true ->
  exists corpus links,
    crawl findall directory = Ok corpus /\
    Dict.get filename corpus = Some links /\
    forall link,
      In link links <->
      In link (findall contents) /\
      link <> filename /\
      In link (map fst directory) /\
      endswith link ".html" = true.
Proof.
  intros Hnd Hin Hhtml.
  destruct (crawl_eq findall directory) as (corpus & Hrun & Hkeys & Hval).
  destruct (Hval filename) as (s & Hs & Hget).
  { rewrite Hkeys. apply in_keys_crawl_read. split; auto.
    change filename with (fst (filename, contents)). now apply in_map. }
  rewrite (get_crawl_read findall directory filename contents Hnd Hin Hhtml)
    in Hs.
  injection Hs as <-.
  exists corpus. eexists. split; [exact Hrun|]. split; [exact Hget|].
  intros link.
  rewrite in_set_of_list, filter_In, in_set_discard, in_set_of_list.
  rewrite mem_true_iff, in_keys_crawl_read. tauto.
Qed.

Lemma crawl_links_witness :
  exists corpus links,
    crawl (fun contents => [contents; "b.html"; "c.css"])
          [("a.html", "b.html"); ("b.html", "a.html"); ("c.css", "a.html")]
    = Ok corpus /\
    Dict.get "a.html" corpus = Some links /\
    forall link,
      In link links <->
      In link ["b.html"; "b.html"; "c.css"] /\
      link <> "a.html" /\
      In link ["a.html"; "b.html"; "c.css"] /\
      endswith link ".html" = true.
Proof.
  assert (Hnd : NoDup (map fst [("a.html", "b.html"); ("b.html", "a.html");
                                ("c.css", "a.html")]))
    by (repeat constructor; simpl; intuition discriminate).
  assert (Hin : In ("a.html", "b.html")
                   [("a.html", "b.html"); ("b.html", "a.html");
                    ("c.css", "a.html")]) by (simpl; auto).
  exact (crawl_links (fun contents => [contents; "b.html"; "c.css"])
           _ "a.html" "b.html" Hnd Hin eq_refl).
Defined.

(** ** transition_model, beyond well-formed input *)

Lemma tm_loop_total (rpp lpp : Q) (linked : pyset) (ks : list string) :
  forall out,
  exists out',
    for_each ks out
      (fun output key =>
         let output := Dict.set key rpp output in
         if in_set key linked then
           v <- Dict.getitem key output ;;
           Ok (Dict.set key (v + lpp) output)
         else Ok output) = Ok out'.
Proof.
  induction ks as [|k ks IH]; intros out; simpl.
  - eauto.
  - destruct (in_set k linked).
    + unfold Dict.getitem. rewrite get_set_same. simpl. apply IH.
    + simpl. apply IH.
Qed.

(** X4: the only exception [transition_model] can raise is the
    [KeyError] of [corpus[page]], raised exactly when the page is not
    in the corpus; in particular it never divides by zero. *)
Theorem transition_model_errors (corpus : Corpus) (page : string) (d : Q) :
  (Dict.get page corpus = None ->
   transition_model corpus page d = Raise KeyError) /\
  (Dict.get page corpus <> None ->
   exists out, transition_model corpus page d = Ok out).
Proof.
  unfold transition_model, Dict.getitem. split.
  - intros ->. reflexivity.
  - destruct (Dict.get page corpus) as [links|] eqn:Hget; [|congruence].
    intros _. cbn [bind].
    pose proof (len_pos _ _ _ Hget) as HN.
    rewrite (true_div_Ok 1 (Dict.len corpus)) by lia.
    destruct (set_len links =? 0)%Z eqn:Ek; cbn [negb bind fst snd].
    + apply tm_loop_total.
    + apply Z.eqb_neq in Ek.
      rewrite (true_div_Ok 1 (set_len links)) by lia.
      cbn [bind fst snd]. apply tm_loop_total.
Qed.

Lemma transition_model_errors_witness :
  transition_model corpus_abc "D" (85 # 100) = Raise KeyError /\
  exists out, transition_model corpus_abc "A" (85 # 100) = Ok out.
Proof.
  split.
  - exact (proj1 (transition_model_errors corpus_abc "D" (85 # 100)) eq_refl).
  - assert (H : Dict.get "A" corpus_abc <> None) by discriminate.
    exact (proj2 (transition_model_errors corpus_abc "A" (85 # 100)) H).
Defined.

Lemma count_links_in_corpus (links : pyset) (ks : list string) :
  NoDup ks -> NoDup links ->
  length (filter (fun q => in_set q links) ks) =
  length (filter (fun l => in_set l ks) links).
Proof.
  intros Hks Hl. apply Permutation_length.
  apply NoDup_Permutation; try now apply NoDup_filter.
  intros x. rewrite !filter_In, !in_set_true_iff. tauto.
Qed.

(** X5: the mass of the distribution.  On a page with [k > 0] links of
    which [m] are pages of the corpus, the values sum to
    [(1 - d) + d * m / k]: the share of a link that is not a page of
    the corpus is lost. *)
Theorem transition_model_mass (corpus : Corpus) (page : string) (d : Q)
        (links : pyset) :
  wf_corpus corpus ->
  Dict.get page corpus = Some links ->
  links <> [] ->
  exists out,
    transition_model corpus page d = Ok out /\
    Qsum (Dict.values out) ==
    (1 - d)
    + d * (inject_Z (Z.of_nat
                       (length (filter (fun l => Dict.mem l corpus) links)))
           / inject_Z (set_len links)).
Proof.
  intros [Hnd Hsets] Hget Hne.
  exists (tm_dist corpus links d). split; [now apply transition_model_eq|].
  pose proof (len_pos _ _ _ Hget) as HN.
  assert (HndL : NoDup links).
  { rewrite Forall_forall in Hsets.
    exact (Hsets _ (get_in_corpus _ _ _ Hget)). }
  assert (Hk : (0 < set_len links)%Z)
    by (unfold set_len; destruct links; simpl; [congruence | lia]).
  assert (HN' : ~ inject_Z (Dict.len corpus) == 0)
    by (apply inject_Z_nonzero; lia).
  assert (Hk' : ~ inject_Z (set_len links) == 0)
    by (apply inject_Z_nonzero; lia).
  unfold tm_dist. rewrite values_tabulate. unfold tm_entry.
  replace (set_len links =? 0)%Z with false
    by (symmetry; apply Z.eqb_neq; lia).
  cbn [negb].
  rewrite (Qsum_two_levels (fun q => in_set q links)).
  rewrite count_links_in_corpus by auto.
  rewrite (filter_ext (fun l => in_set l (Dict.keys corpus))
                      (fun l => Dict.mem l corpus)).
  - unfold Dict.keys at 1. rewrite length_map. fold (Dict.len corpus).
    field. auto.
  - intros l. destruct (Dict.mem l corpus) eqn:E.
    + apply in_set_true_iff. now apply mem_true_iff.
    + apply in_set_false_iff. now apply mem_false_iff.
Qed.

Lemma transition_model_mass_witness :
  exists out,
    transition_model corpus_open "A" (85 # 100) = Ok out /\
    Qsum (Dict.values out) ==
    (1 - (85 # 100))
    + (85 # 100)
      * (inject_Z (Z.of_nat
                     (length (filter (fun l => Dict.mem l corpus_open)
                                     ["B"; "Z"])))
         / inject_Z (set_len ["B"; "Z"])).
Proof.
  assert (Hwf : wf_corpus corpus_open)
    by (split; repeat constructor; simpl; intuition discriminate).
  assert (Hne : ["B"; "Z"] <> @nil string) by discriminate.
  exact (transition_model_mass corpus_open "A" (85 # 100) ["B"; "Z"]
           Hwf eq_refl Hne).
Defined.

(** X6: the extreme damping factors.  With [d = 0] every page of the
    corpus gets [1/N], whatever the links of the current page; with
    [d = 1] and [k > 0] links, a linked page gets [1/k] and any other
    page gets 0. *)
Theorem transition_model_extreme_damping (corpus : Corpus) (page : string)
        (links : pyset) :
  NoDup (Dict.keys corpus) ->
  Dict.get page corpus = Some links ->
  (exists out,
      transition_model corpus page 0 = Ok out /\
      Dict.keys out = Dict.keys corpus /\
      forall q v, Dict.get q out = Some v ->
                  v == 1 / inject_Z (Dict.len corpus)) /\
  (links <> [] ->
   exists out,
     transition_model corpus page 1 = Ok out /\
     Dict.keys out = Dict.keys corpus /\
     forall q v, Dict.get q out = Some v ->
                 v == if in_set q links
                      then 1 / inject_Z (set_len links) else 0).
Proof.
  intros Hnd Hget.
  pose proof (len_pos _ _ _ Hget) as HN.
  assert (HN' : ~ inject_Z (Dict.len corpus) == 0)
    by (apply inject_Z_nonzero; lia).
  assert (Hentry : forall d q v,
             Dict.get q (tm_dist corpus links d) = Some v ->
             v = tm_entry corpus links d q).
  { intros d q v Hq. pose proof (get_Some_in _ _ _ Hq) as Hin.
    unfold tm_dist in *. rewrite keys_tabulate in Hin.
    rewrite get_tabulate in Hq by auto. congruence. }
  split.
  - exists (tm_dist corpus links 0).
    split; [now apply transition_model_eq|].
    split; [apply keys_tabulate|].
    intros q v Hq. rewrite (Hentry _ _ _ Hq). unfold tm_entry.
    destruct (set_len links =? 0)%Z eqn:Ek; cbn [negb]; [reflexivity|].
    apply Z.eqb_neq in Ek.
    assert (Hk' : ~ inject_Z (set_len links) == 0)
      by (apply inject_Z_nonzero; lia).
    destruct (in_set q links); field; auto.
  - intros Hne. exists (tm_dist corpus links 1).
    split; [now apply transition_model_eq|].
    split; [apply keys_tabulate|].
    intros q v Hq. rewrite (Hentry _ _ _ Hq). unfold tm_entry.
    assert (Hk : (0 < set_len links)%Z)
      by (unfold set_len; destruct links; simpl; [congruence | lia]).
    assert (Hk' : ~ inject_Z (set_len links) == 0)
      by (apply inject_Z_nonzero; lia).
    replace (set_len links =? 0)%Z with false
      by (symmetry; apply Z.eqb_neq; lia).
    cbn [negb]. destruct (in_set q links); field; auto.
Qed.

Lemma transition_model_extreme_damping_witness :
  (exists out,
      transition_model corpus_abc "A" 0 = Ok out /\
      Dict.keys out = Dict.keys corpus_abc /\
      forall q v, Dict.get q out = Some v ->
                  v == 1 / inject_Z (Dict.len corpus_abc)) /\
  (exists out,
     transition_model corpus_abc "A" 1 = Ok out /\
     Dict.keys out = Dict.keys corpus_abc /\
     forall q v, Dict.get q out = Some v ->
                 v == if in_set q ["B"; "C"]
                      then 1 / inject_Z (set_len ["B"; "C"]) else 0).
Proof.
  assert (Hne : ["B"; "C"] <> @nil string) by discriminate.
  exact (conj
           (proj1 (transition_model_extreme_damping corpus_abc "A" ["B"; "C"]
                     NoDup_keys_abc eq_refl))
           (proj2 (transition_model_extreme_damping corpus_abc "A" ["B"; "C"]
                     NoDup_keys_abc eq_refl) Hne)).
Defined.

(** ** The selection loop as inverse-CDF sampling *)



(** ** The sampler stays in the corpus *)

Lemma next_page_in_corpus (corpus : Corpus) (d : Q) (cur : string) (r : Q) :
  NoDup (Dict.keys corpus) ->
  In cur (Dict.keys corpus) ->
  In (next_page corpus d cur r) (Dict.keys corpus).
Proof.
  intros Hnd Hin.
  destruct (sample_step_spec corpus d Hnd r
              {| current_page := cur; pages_probabilities := [];
                 pages_count := [] |})
    as (st' & _ & Hcur & Hin' & _); auto.
  - intros q dist Hq. discriminate.
  - simpl in Hcur. now rewrite <- Hcur.
Qed.

Lemma walk_in_corpus (corpus : Corpus) (d : Q) (rs : nat -> Q)
      (steps : list nat) :
  NoDup (Dict.keys corpus) ->
  forall cur q,
    In cur (Dict.keys corpus) ->
    In q (walk corpus d rs steps cur) -> In q (Dict.keys corpus).
Proof.
  intros Hnd. induction steps as [|i steps IH]; intros cur q Hcur; simpl.
  - tauto.
  - intros [<-|H]; auto.
    apply (IH (next_page corpus d cur (rs i))); auto.
    now apply next_page_in_corpus.
Qed.

(** X8: every entry of the map returned by the sampler is a page of
    the corpus with a rank in (0, 1], and the map has at most [n]
    entries and at most one per page of the corpus. *)
Theorem sample_pagerank_range
        (corpus : Corpus) (d : Q) (n : Z) (c : nat) (rs : nat -> Q) :
  NoDup (Dict.keys corpus) -> corpus <> [] -> (1 <= n)%Z ->
  exists out,
    sample_pagerank corpus d n c rs = Ok out /\
    (forall q v, Dict.get q out = Some v ->
                 In q (Dict.keys corpus) /\ 0 < v /\ v <= 1) /\
    (Dict.len out <= n)%Z /\
    (Dict.len out <= Dict.len corpus)%Z.
Proof.
  intros Hnd Hne Hn.
  destruct (sample_pagerank_eq corpus d n c rs Hnd Hne Hn)
    as (start & _ & Hstart & Heq).
  set (visited := walk corpus d rs (range n) start) in *.
  assert (Hlen : Z.of_nat (length visited) = n).
  { unfold visited. rewrite walk_length. unfold range.
    rewrite length_seq. lia. }
  assert (Hvis : forall q, In q visited -> In q (Dict.keys corpus)).
  { intros q. now apply walk_in_corpus. }
  eexists. split; [exact Heq|]. split; [|split].
  - intros q v Hq. pose proof (get_Some_in _ _ _ Hq) as Hin.
    rewrite keys_tabulate in Hin. rewrite get_tabulate in Hq by auto.
    injection Hq as <-. apply (proj1 (in_keys_count_all _ _)) in Hin.
    split; [now apply Hvis|].
    unfold rank_of. rewrite get_count_all.
    pose proof (proj1 (count_occ_In string_dec visited q) Hin) as Hpos.
    pose proof (count_occ_bound string_dec q visited) as Hbound.
    replace (count_occ string_dec visited q =? 0)%nat with false
      by (symmetry; apply Nat.eqb_neq; lia).
    unfold visits.
    assert (Hn' : 0 < inject_Z n) by (apply inject_Z_pos; lia).
    split.
    + apply Qlt_shift_div_l; auto. rewrite Qmult_0_l.
      apply inject_Z_pos. lia.
    + apply Qle_shift_div_r; auto. rewrite Qmult_1_l.
      rewrite <- Zle_Qle. lia.
  - unfold Dict.len. rewrite length_map. rewrite <- Hlen.
    apply inj_le. apply NoDup_incl_length; [apply NoDup_count_all|].
    intros q. apply in_keys_count_all.
  - unfold Dict.len. rewrite length_map.
    apply inj_le.
    rewrite <- (length_map fst corpus). fold (Dict.keys corpus).
    apply NoDup_incl_length; [apply NoDup_count_all|].
    intros q Hq. apply Hvis. now apply (proj1 (in_keys_count_all _ _)).
Qed.

Lemma sample_pagerank_range_witness :
  exists out,
    sample_pagerank corpus_abc (85 # 100) 3 1 (fun _ => 1 # 2) = Ok out /\
    (forall q v, Dict.get q out = Some v ->
                 In q (Dict.keys corpus_abc) /\ 0 < v /\ v <= 1) /\
    (Dict.len out <= 3)%Z /\
    (Dict.len out <= Dict.len corpus_abc)%Z.
Proof.
  assert (Hne : corpus_abc <> []) by discriminate.
  assert (Hn : (1 <= 3)%Z) by lia.
  exact (sample_pagerank_range corpus_abc (85 # 100) 3 1 (fun _ => 1 # 2)
           NoDup_keys_abc Hne Hn).
Defined.

(** X9: [crawl] followed by [sample_pagerank].  When the directory has
    an [.html] file and [n >= 1], the sampler succeeds on the crawled
    corpus, its values sum to 1 in exact arithmetic, and every returned
    page is an [.html] file of the directory. *)
Theorem crawl_then_sample
        (findall : string -> list string)
        (directory : list (string * string)) (filename : string)
        (d : Q) (n : Z) (c : nat) (rs : nat -> Q) :
  In filename (map fst directory) ->
  endswith filename ".html" = true ->
  (1 <= n)%Z ->
  exists corpus out,
    crawl findall directory = Ok corpus /\
    sample_pagerank corpus d n c rs = Ok out /\
    Qsum (Dict.values out) == 1 /\
    (forall q, In q (Dict.keys out) ->
               In q (map fst directory) /\ endswith q ".html" = true).
Proof.
  intros Hfile Hhtml Hn.
  destruct (crawl_eq findall directory) as (corpus & Hcrawl & Hkeys & _).
  destruct (crawl_wf_closed findall directory corpus Hcrawl)
    as [Hwf Hclosed].
  assert (Hpages : forall q, In q (Dict.keys corpus) ->
                             In q (map fst directory) /\
                             endswith q ".html" = true).
  { intros q Hq. rewrite Hkeys in Hq.
    now apply in_keys_crawl_read in Hq. }
  assert (Hne : corpus <> []).
  { intros ->. simpl in Hkeys.
    assert (H : In filename (Dict.keys (crawl_read findall directory)))
      by (apply in_keys_crawl_read; auto).
    rewrite <- Hkeys in H. destruct H. }
  destruct (sample_pagerank_eq corpus d n c rs (proj1 Hwf) Hne Hn)
    as (start & _ & Hstart & Heq).
  exists corpus. eexists. split; [exact Hcrawl|]. split; [exact Heq|].
  rewrite values_tabulate, keys_tabulate.
  split.
  - rewrite Qsum_rank_of by (try apply NoDup_count_all; lia).
    rewrite Zsum_count_all, walk_length. unfold range. rewrite length_seq.
    rewrite Z2Nat.id by lia. field. apply inject_Z_nonzero. lia.
  - intros q Hq. apply Hpages.
    apply (proj1 (in_keys_count_all _ _)) in Hq.
    eapply walk_in_corpus; eauto. exact (proj1 Hwf).
Qed.

Lemma crawl_then_sample_witness :
  exists corpus out,
    crawl (fun contents => [contents; "b.html"])
          [("a.html", "b.html"); ("b.html", "a.html")] = Ok corpus /\
    sample_pagerank corpus (85 # 100) 2 0 (fun _ => 1 # 2) = Ok out /\
    Qsum (Dict.values out) == 1 /\
    (forall q, In q (Dict.keys out) ->
               In q (map fst [("a.html", "b.html"); ("b.html", "a.html")]) /\
               endswith q ".html" = true).
Proof.
  assert (Hin : In "a.html"
                   (map fst [("a.html", "b.html"); ("b.html", "a.html")]))
    by (simpl; auto).
  assert (Hn : (1 <= 2)%Z) by lia.
  exact (crawl_then_sample (fun contents => [contents; "b.html"])
           [("a.html", "b.html"); ("b.html", "a.html")] "a.html"
           (85 # 100) 2 0 (fun _ => 1 # 2) Hin eq_refl Hn).
Defined.

(** ** The reverse index of the solver *)

Lemma for_each_prefix {A S : Type} (P : list A -> S -> Prop) (xs : list A)
      (body : S -> A -> result S) :
  (forall pre x post s,
      xs = pre ++ x :: post -> P pre s ->
      exists s', body s x = Ok s' /\ P (pre ++ [x]) s') ->
  forall s, P [] s -> exists s', for_each xs s body = Ok s' /\ P xs s'.
Proof.
  intros Hbody.
  assert (Hgen : forall rest pre s,
             xs = pre ++ rest -> P pre s ->
             exists s', for_each rest s body = Ok s' /\ P xs s').
  { induction rest as [|x rest IH]; intros pre s Hxs Hp; simpl.
    - exists s. rewrite app_nil_r in Hxs. subst. auto.
    - destruct (Hbody pre x rest s Hxs Hp) as (s1 & Hs1 & Hp1).
      rewrite Hs1. simpl. apply (IH (pre ++ [x])); auto.
      rewrite <- app_assoc. exact Hxs. }
  intros s Hs. apply (Hgen xs [] s); auto.
Qed.

(** One pass through the body of the inner setup loop: [page] becomes
    a contributor of [referenced]. *)
Lemma mention_step (page referenced : string) (m : Dict.t pyset) :
  NoDup (Dict.keys m) ->
  (forall q c, Dict.get q m = Some c -> NoDup c /\ c <> []) ->
  exists m',
    (if Dict.mem referenced m then
       s <- Dict.getitem referenced m ;;
       Ok (Dict.set referenced (set_add page s) m)
     else Ok (Dict.set referenced [page] m)) = Ok m' /\
    NoDup (Dict.keys m') /\
    (forall q c, Dict.get q m' = Some c -> NoDup c /\ c <> []) /\
    (forall q p,
        (exists c, Dict.get q m' = Some c /\ In p c) <->
        ((exists c, Dict.get q m = Some c /\ In p c) \/
         (q = referenced /\ p = page))).
Proof.
  intros Hnd Hsets. unfold Dict.mem, Dict.getitem.
  destruct (Dict.get referenced m) as [s|] eqn:Hs; cbn [bind].
  - eexists. split; [reflexivity|]. split; [now apply NoDup_keys_set|].
    split.
    + intros q c. destruct (string_dec q referenced) as [->|Hne].
      * rewrite get_set_same. intros [= <-].
        destruct (Hsets _ _ Hs) as [Hnds _]. split.
        -- now apply NoDup_set_add.
        -- intros E. assert (H : In page (set_add page s))
             by (apply in_set_add_iff; now left).
           rewrite E in H. destruct H.
      * rewrite get_set_other by auto. apply Hsets.
    + intros q p. destruct (string_dec q referenced) as [->|Hne].
      * rewrite get_set_same. split.
        -- intros (c & [= <-] & Hp).
           apply in_set_add_iff in Hp as [->|Hp]; eauto.
        -- intros [(c & Hc & Hp)|[_ ->]].
           ++ rewrite Hs in Hc. injection Hc as <-.
              eexists. split; [reflexivity|].
              apply in_set_add_iff. now right.
           ++ eexists. split; [reflexivity|].
              apply in_set_add_iff. now left.
      * rewrite get_set_other by auto. split; [auto|].
        intros [H|[E _]]; [exact H | contradiction].
  - eexists. split; [reflexivity|]. split; [now apply NoDup_keys_set|].
    split.
    + intros q c. destruct (string_dec q referenced) as [->|Hne].
      * rewrite get_set_same. intros [= <-]. split.
        -- constructor; [intros [] | constructor].
        -- discriminate.
      * rewrite get_set_other by auto. apply Hsets.
    + intros q p. destruct (string_dec q referenced) as [->|Hne].
      * rewrite get_set_same. split.
        -- intros (c & [= <-] & [<-|[]]). auto.
        -- intros [(c & Hc & _)|[_ ->]]; [congruence|].
           eexists. split; [reflexivity|]. now left.
      * rewrite get_set_other by auto. split; [auto|].
        intros [H|[E _]]; [exact H | contradiction].
Qed.

(** The inner setup loop over the links of [page]. *)
Lemma mention_loop (page : string) (links : pyset) (m : Dict.t pyset) :
  NoDup (Dict.keys m) ->
  (forall q c, Dict.get q m = Some c -> NoDup c /\ c <> []) ->
  exists m',
    for_each links m
      (fun pages_that_mention_pages referenced_page =>
         if Dict.mem referenced_page pages_that_mention_pages then
           s <- Dict.getitem referenced_page pages_that_mention_pages ;;
           Ok (Dict.set referenced_page (set_add page s)
                        pages_that_mention_pages)
         else
           Ok (Dict.set referenced_page [page] pages_that_mention_pages))
    = Ok m' /\
    NoDup (Dict.keys m') /\
    (forall q c, Dict.get q m' = Some c -> NoDup c /\ c <> []) /\
    (forall q p,
        (exists c, Dict.get q m' = Some c /\ In p c) <->
        ((exists c, Dict.get q m = Some c /\ In p c) \/
         (In q links /\ p = page))).
Proof.
  intros Hnd Hsets.
  apply (for_each_prefix
           (fun pre m' =>
              NoDup (Dict.keys m') /\
              (forall q c, Dict.get q m' = Some c -> NoDup c /\ c <> []) /\
              (forall q p,
                  (exists c, Dict.get q m' = Some c /\ In p c) <->
                  ((exists c, Dict.get q m = Some c /\ In p c) \/
                   (In q pre /\ p = page))))).
  - intros pre x post m1 _ (Hnd1 & Hsets1 & Hrel1).
    destruct (mention_step page x m1 Hnd1 Hsets1)
      as (m2 & Hstep & Hnd2 & Hsets2 & Hrel2).
    exists m2. split; [exact Hstep|]. split; [exact Hnd2|].
    split; [exact Hsets2|].
    intros q p. rewrite Hrel2, Hrel1, in_app_iff. simpl.
    intuition (subst; auto).
  - split; [exact Hnd|]. split; [exact Hsets|].
    intros q p. simpl. tauto.
Qed.

(** The setup loop in closed form. *)
Lemma iterate_setup_spec (corpus : Corpus) (starting_rank : Q) :
  NoDup (Dict.keys corpus) ->
  exists ranks mentions,
    iterate_setup corpus starting_rank = Ok (ranks, mentions) /\
    ranks = map (fun k => (k, starting_rank)) (Dict.keys corpus) /\
    NoDup (Dict.keys mentions) /\
    (forall q contributors,
        Dict.get q mentions = Some contributors ->
        NoDup contributors /\ contributors <> []) /\
    (forall q p,
        (exists contributors,
            Dict.get q mentions = Some contributors /\ In p contributors) <->
        (exists links, Dict.get p corpus = Some links /\ In q links)).
Proof.
  intros Hnd. unfold iterate_setup.
  destruct (for_each_prefix
              (fun pre (acc : Dict.t Q * Dict.t pyset) =>
                 fst acc = map (fun k => (k, starting_rank)) pre /\
                 NoDup (Dict.keys (snd acc)) /\
                 (forall q c, Dict.get q (snd acc) = Some c ->
                              NoDup c /\ c <> []) /\
                 (forall q p,
                     (exists c, Dict.get q (snd acc) = Some c /\ In p c) <->
                     (In p pre /\
                      exists links,
                        Dict.get p corpus = Some links /\ In q links)))
              (Dict.keys corpus)
              (fun acc page =>
                 let page_ranks := Dict.set page starting_rank (fst acc) in
                 links <- Dict.getitem page corpus ;;
                 mentions <-
                   for_each links (snd acc)
                     (fun pages_that_mention_pages referenced_page =>
                        if Dict.mem referenced_page pages_that_mention_pages
                        then
                          s <- Dict.getitem referenced_page
                                 pages_that_mention_pages ;;
                          Ok (Dict.set referenced_page (set_add page s)
                                       pages_that_mention_pages)
                        else
                          Ok (Dict.set referenced_page [page]
                                       pages_that_mention_pages)) ;;
                 Ok (page_ranks, mentions)))
    with (s := (@nil (string * Q), @nil (string * pyset)))
    as ([ranks mentions] & Hrun & Hranks & Hndm & Hsets & Hrel).
  - intros pre x post [rk m] Hxs (Hrk & Hndm & Hsets & Hrel).
    cbn [fst snd] in *.
    assert (Hx : In x (Dict.keys corpus))
      by (rewrite Hxs, in_app_iff; right; now left).
    assert (Hfresh : ~ In x pre).
    { rewrite Hxs in Hnd. apply NoDup_remove_2 in Hnd.
      intros H. apply Hnd. apply in_app_iff. now left. }
    destruct (in_keys_get _ _ Hx) as [links Hlinks].
    rewrite (getitem_Ok _ _ _ Hlinks). cbn [bind].
    destruct (mention_loop x links m Hndm Hsets)
      as (m' & Hloop & Hndm' & Hsets' & Hrel').
    rewrite Hloop. cbn [bind]. eexists. split; [reflexivity|].
    cbn [fst snd]. split; [|split; [exact Hndm'|split; [exact Hsets'|]]].
    + rewrite Hrk, map_app. simpl. apply set_fresh.
      now rewrite keys_tabulate.
    + intros q p. rewrite Hrel', Hrel, in_app_iff. simpl. split.
      * intros [(Hp & l & Hl & Hq)|[Hq ->]]; eauto 6.
      * intros ([Hp|[<-|[]]] & l & Hl & Hq); eauto 6.
        right. rewrite Hlinks in Hl. injection Hl as <-. auto.
  - cbn [fst snd]. split; [reflexivity|]. split; [constructor|].
    split; [discriminate|].
    intros q p. split; [intros (c & Hc & _); discriminate | simpl; tauto].
  - exists ranks, mentions. cbn [fst snd] in *.
    split; [exact Hrun|]. split; [exact Hranks|]. split; [exact Hndm|].
    split; [exact Hsets|].
    intros q p. rewrite Hrel. split; [tauto|].
    intros (links & Hl & Hq). split; eauto.
    eapply get_Some_in; eauto.
Qed.

(** X10: the setup loop always succeeds; the initial rank map gives
    every page the starting rank, and the reverse index is the exact
    inverse of the graph: [p] is a contributor of [q] exactly when [p]
    is a page that links to [q].  Contributor sets are never empty, so
    a page is a key of the index exactly when some page links to it,
    and every contributor has an outgoing link. *)
Theorem reverse_index_exact (corpus : Corpus) (starting_rank : Q) :
  NoDup (Dict.keys corpus) ->
  exists ranks mentions,
    iterate_setup corpus starting_rank = Ok (ranks, mentions) /\
    ranks = map (fun k => (k, starting_rank)) (Dict.keys corpus) /\
    NoDup (Dict.keys mentions) /\
    (forall q contributors,
        Dict.get q mentions = Some contributors ->
        NoDup contributors /\ contributors <> []) /\
    (forall q p,
        (exists contributors,
            Dict.get q mentions = Some contributors /\ In p contributors) <->
        (exists links, Dict.get p corpus = Some links /\ In q links)) /\
    (forall q,
        Dict.mem q mentions = true <->
        exists p links, Dict.get p corpus = Some links /\ In q links) /\
    (forall q contributors p,
        Dict.get q mentions = Some contributors -> In p contributors ->
        exists links, Dict.get p corpus = Some links /\ links <> []).
Proof.
  intros Hnd.
  destruct (iterate_setup_spec corpus starting_rank Hnd)
    as (ranks & mentions & Hrun & Hranks & Hndm & Hsets & Hrel).
  exists ranks, mentions.
  split; [exact Hrun|]. split; [exact Hranks|]. split; [exact Hndm|].
  split; [exact Hsets|]. split; [exact Hrel|]. split.
  - intros q. rewrite mem_true_iff. split.
    + intros Hq. apply in_keys_get in Hq as [c Hc].
      destruct (Hsets q c Hc) as [_ Hne].
      destruct c as [|p c]; [congruence|].
      destruct (proj1 (Hrel q p)) as (links & Hl & Hin).
      * exists (p :: c). split; [exact Hc | now left].
      * exists p, links. auto.
    + intros (p & links & Hl & Hin).
      destruct (proj2 (Hrel q p)) as (c & Hc & _); [eauto|].
      eapply get_Some_in; eauto.
  - intros q c p Hc Hp.
    destruct (proj1 (Hrel q p)) as (links & Hl & Hin); [eauto|].
    exists links. split; auto. intros ->. destruct Hin.
Qed.

Lemma reverse_index_exact_witness :
  exists ranks mentions,
    iterate_setup corpus_abc (1 # 3) = Ok (ranks, mentions) /\
    ranks = map (fun k => (k, 1 # 3)) (Dict.keys corpus_abc) /\
    NoDup (Dict.keys mentions) /\
    (forall q contributors,
        Dict.get q mentions = Some contributors ->
        NoDup contributors /\ contributors <> []) /\
    (forall q p,
        (exists contributors,
            Dict.get q mentions = Some contributors /\ In p contributors) <->
        (exists links, Dict.get p corpus_abc = Some links /\ In q links)) /\
    (forall q,
        Dict.mem q mentions = true <->
        exists p links, Dict.get p corpus_abc = Some links /\ In q links) /\
    (forall q contributors p,
        Dict.get q mentions = Some contributors -> In p contributors ->
        exists links, Dict.get p corpus_abc = Some links /\ links <> []).
Proof.
  exact (reverse_index_exact corpus_abc (1 # 3) NoDup_keys_abc).
Defined.

(** ** The update of the solver *)

Lemma Qsum_scale (d : Q) (f : string -> Q) (ps : list string) :
  Qsum (map (fun p => d * f p) ps) == d * Qsum (map f ps).
Proof.
  induction ps as [|p ps IH].
  - simpl. ring.
  - cbn [map Qsum fold_right]. fold (Qsum (map (fun p => d * f p) ps)).
    fold (Qsum (map f ps)). rewrite IH. ring.
Qed.

Lemma last_bound_in (ps : list string) (before : option string) :
  ps <> [] -> exists p, last_bound ps before = Some p /\ In p ps.
Proof.
  unfold last_bound. revert before.
  induction ps as [|x ps IH]; intros before Hne; [congruence|].
  destruct ps as [|y ps].
  - exists x. simpl. auto.
  - destruct (IH (Some x)) as (p & Hp & Hin); [discriminate|].
    exists p. split; [exact Hp | now right].
Qed.

(** The inner loop of the update, in closed form: the sum of
    [d * rank(p) / len(corpus[p])] over the contributors. *)
Lemma sum_references_spec (corpus : Corpus) (d : Q) (page_count : Z)
      (ranks : Dict.t Q) (contributors : pyset) :
  (forall p, In p contributors ->
             In p (Dict.keys ranks) /\
             exists links, Dict.get p corpus = Some links /\ links <> []) ->
  forall acc,
  exists s,
    sum_references corpus d page_count ranks contributors acc =
    Ok (s, last_bound contributors (snd acc)) /\
    s == fst acc
         + Qsum (map (fun p => d * (value_of ranks p
                                    / inject_Z (out_degree corpus p)))
                     contributors).
Proof.
  unfold sum_references, last_bound.
  induction contributors as [|p ps IH]; intros Hok acc.
  - exists (fst acc). simpl. split; [now destruct acc | ring].
  - destruct (Hok p (or_introl eq_refl)) as (Hin & links & Hl & Hne).
    destruct (in_keys_get _ _ Hin) as [r Hr].
    assert (Hk : (0 < set_len links)%Z)
      by (unfold set_len; destruct links; simpl; [congruence | lia]).
    cbn [for_each]. rewrite (getitem_Ok _ _ _ Hr), (getitem_Ok _ _ _ Hl).
    cbn [bind].
    replace (set_len links =? 0)%Z with false
      by (symmetry; apply Z.eqb_neq; lia).
    rewrite true_div_Ok by lia. cbn [bind].
    destruct (IH (fun q Hq => Hok q (or_intror Hq))
                 (fst acc + d * (r / inject_Z (set_len links)), Some p))
      as (s & Hs & Hsum).
    exists s. split; [exact Hs|].
    assert (Hv : value_of ranks p = r) by (unfold value_of; now rewrite Hr).
    assert (Ho : out_degree corpus p = set_len links)
      by (unfold out_degree; now rewrite Hl).
    rewrite Hsum. cbn [fst map Qsum fold_right]. rewrite Hv, Ho.
    unfold Qsum. ring.
Qed.

Lemma page_at_total (corpus : Corpus) (count : Z) :
  corpus <> [] -> (0 <= count)%Z ->
  exists q,
    page_at (Dict.keys corpus) (Dict.len corpus) count = Ok q /\
    In q (Dict.keys corpus).
Proof.
  intros Hne Hcount. unfold page_at, list_index.
  assert (HN : (0 < Dict.len corpus)%Z)
    by (unfold Dict.len; destruct corpus; simpl; [congruence | lia]).
  pose proof (Z.mod_pos_bound count (Dict.len corpus) HN) as [Hlo Hhi].
  replace (count mod Dict.len corpus <? 0)%Z with false
    by (symmetry; apply Z.ltb_ge; lia).
  destruct (nth_error (Dict.keys corpus)
              (Z.to_nat (count mod Dict.len corpus))) as [q|] eqn:E.
  - exists q. split; auto. eapply nth_error_In; eauto.
  - apply nth_error_None in E. unfold Dict.keys in E.
    rewrite length_map in E. unfold Dict.len in *. lia.
Qed.

Section UpdateFacts.
Variables (corpus : Corpus) (d : Q) (mentions : Dict.t pyset).
Hypothesis Hne : corpus <> [].
Hypothesis Hcontrib :
  forall q contributors p,
    Dict.get q mentions = Some contributors -> In p contributors ->
    exists links, Dict.get p corpus = Some links /\ links <> [].
Hypothesis Hsets :
  forall q contributors,
    Dict.get q mentions = Some contributors -> contributors <> [].

Let N : Z := Dict.len corpus.

Lemma N_pos : (0 < N)%Z.
Proof.
  unfold N, Dict.len. destruct corpus; simpl; [congruence | lia].
Qed.

Lemma references_of_inbound (st : IterState) (q : string)
      (contributors : pyset) :
  Dict.keys (page_ranks st) = Dict.keys corpus ->
  Dict.get q mentions = Some contributors ->
  exists s last,
    references_of corpus d N mentions st q = Ok (s, Some last) /\
    In last contributors /\
    s == d * Qsum (map (fun p => value_of (page_ranks st) p
                                 / inject_Z (out_degree corpus p))
                       contributors).
Proof.
  intros Hkeys Hq. unfold references_of, Dict.mem.
  rewrite Hq, (getitem_Ok _ _ _ Hq). cbn [bind].
  destruct (sum_references_spec corpus d N (page_ranks st) contributors)
    with (acc := (0, reference_page st)) as (s & Hs & Hsum).
  { intros p Hp. destruct (Hcontrib q contributors p Hq Hp) as (l & Hl & Hnl).
    split; eauto. rewrite Hkeys. eapply get_Some_in; eauto. }
  destruct (last_bound_in contributors (reference_page st))
    as (last & Hlast & Hin); [eapply Hsets; eauto|].
  exists s, last. cbn [snd] in Hs. rewrite Hlast in Hs.
  split; [exact Hs|]. split; [exact Hin|].
  rewrite Hsum. cbn [fst]. rewrite Qsum_scale. ring.
Qed.

Lemma references_of_no_inbound (st : IterState) (q rp : string) :
  Dict.keys (page_ranks st) = Dict.keys corpus ->
  Dict.mem q mentions = false ->
  reference_page st = Some rp ->
  In rp (Dict.keys corpus) ->
  references_of corpus d N mentions st q =
  Ok (0 + d * (value_of (page_ranks st) rp / inject_Z N), Some rp).
Proof.
  intros Hkeys Hq Hrp Hin. unfold references_of. rewrite Hq, Hrp.
  rewrite <- Hkeys in Hin. apply in_keys_get in Hin as [r Hr].
  rewrite (getitem_Ok _ _ _ Hr). cbn [bind].
  pose proof N_pos. rewrite true_div_Ok by lia. cbn [bind].
  unfold value_of. now rewrite Hr.
Qed.

Lemma references_of_unbound (st : IterState) (q : string) :
  Dict.mem q mentions = false ->
  reference_page st = None ->
  references_of corpus d N mentions st q = Raise UnboundLocalError.
Proof.
  intros Hq Hrp. unfold references_of. now rewrite Hq, Hrp.
Qed.

(** What the loop keeps true of its state. *)
Let covers (st : IterState) : Prop :=
  Dict.keys (page_ranks st) = Dict.keys corpus /\
  (0 <= current_count st)%Z /\
  (forall rp, reference_page st = Some rp -> In rp (Dict.keys corpus)).

Lemma in_contributors_corpus (q : string) (contributors : pyset) (p : string) :
  Dict.get q mentions = Some contributors -> In p contributors ->
  In p (Dict.keys corpus).
Proof.
  intros Hq Hp. destruct (Hcontrib q contributors p Hq Hp) as (l & Hl & _).
  eapply get_Some_in; eauto.
Qed.

(** An update succeeds unless it is that of a page without inbound
    links while [reference_page] is unbound. *)
Lemma iterate_step_total (st : IterState) (q : string) :
  covers st ->
  page_at (Dict.keys corpus) N (current_count st) = Ok q ->
  Dict.mem q mentions = true \/ reference_page st <> None ->
  exists st',
    iterate_step corpus d mentions st = Ok st' /\
    covers st' /\
    reference_page st' <> None.
Proof.
  intros (Hkeys & Hcount & Href) Hq Hok.
  destruct (page_at_total corpus (current_count st) Hne Hcount)
    as (q' & Hq' & Hin).
  fold N in Hq'. rewrite Hq in Hq'. injection Hq' as <-.
  assert (Hrefs : exists s last,
             references_of corpus d N mentions st q = Ok (s, Some last) /\
             In last (Dict.keys corpus)).
  { destruct (Dict.mem q mentions) eqn:Hmem.
    - apply mem_true_iff in Hmem. apply in_keys_get in Hmem as [c Hc].
      destruct (references_of_inbound st q c Hkeys Hc)
        as (s & last & Hs & Hlast & _).
      exists s, last. split; auto.
      eapply in_contributors_corpus; eauto.
    - destruct Hok as [Hok|Hok]; [discriminate|].
      destruct (reference_page st) as [rp|] eqn:Hrp; [|congruence].
      eexists. exists rp. split.
      + apply references_of_no_inbound; auto.
      + auto. }
  destruct Hrefs as (s & last & Hs & Hlast).
  unfold iterate_step. fold N. rewrite Hq. cbn [bind]. rewrite Hs.
  cbn [bind]. pose proof N_pos. rewrite true_div_Ok by lia. cbn [bind].
  assert (Hinr : In q (Dict.keys (page_ranks st))) by now rewrite Hkeys.
  destruct (in_keys_get _ _ Hinr) as [old Hold].
  rewrite (getitem_Ok _ _ _ Hold). cbn [bind].
  eexists. split; [reflexivity|].
  unfold covers. cbn [page_ranks current_count reference_page snd].
  split; [|discriminate].
  split; [|split].
  - etransitivity; [apply keys_set_present; exact Hinr | exact Hkeys].
  - lia.
  - intros rp [= <-]. exact Hlast.
Qed.

Lemma iterate_loop_safe (fuel : nat) :
  forall st,
    covers st -> reference_page st <> None ->
    iterate_loop fuel corpus d mentions st = None \/
    exists r,
      iterate_loop fuel corpus d mentions st = Some (Ok r) /\
      Dict.keys r = Dict.keys corpus.
Proof.
  induction fuel as [|fuel IH]; intros st Hcov Href; simpl.
  - destruct (converged corpus st); [right|left]; auto.
    eexists. split; [reflexivity | apply Hcov].
  - destruct (converged corpus st).
    + right. eexists. split; [reflexivity | apply Hcov].
    + destruct (page_at_total corpus (current_count st) Hne)
        as (q & Hq & _); [apply Hcov|].
      destruct (iterate_step_total st q Hcov Hq (or_intror Href))
        as (st' & Hstep & Hcov' & Href').
      rewrite Hstep. now apply IH.
Qed.
End UpdateFacts.

(** What the loop is entered with. *)
Lemma iterate_start_facts (corpus : Corpus) (mentions : Dict.t pyset)
      (st0 : IterState) :
  NoDup (Dict.keys corpus) ->
  iterate_start corpus = Ok (mentions, st0) ->
  corpus <> [] /\
  Dict.keys (page_ranks st0) = Dict.keys corpus /\
  current_count st0 = 0%Z /\
  reference_page st0 = None /\
  (forall q contributors,
      Dict.get q mentions = Some contributors -> contributors <> []) /\
  (forall q p,
      (exists contributors,
          Dict.get q mentions = Some contributors /\ In p contributors) <->
      (exists links, Dict.get p corpus = Some links /\ In q links)).
Proof.
  intros Hnd Hstart.
  destruct (iterate_start_inv _ _ _ Hstart) as (HN & Hcur & _ & Href).
  unfold iterate_start, true_div in Hstart.
  destruct (Qeq_bool (inject_Z (Dict.len corpus)) 0); [discriminate|].
  cbn [bind] in Hstart.
  destruct (iterate_setup_spec corpus (1 / inject_Z (Dict.len corpus)) Hnd)
    as (ranks & mentions' & Hrun & Hranks & _ & Hsets & Hrel).
  rewrite Hrun in Hstart. cbn [bind fst snd] in Hstart.
  injection Hstart as <- <-. cbn [page_ranks].
  split; [intros ->; unfold Dict.len in HN; simpl in HN; lia|].
  split; [rewrite Hranks; apply keys_tabulate|].
  split; [exact Hcur|]. split; [exact Href|].
  split; [|exact Hrel].
  intros q c Hc. now destruct (Hsets q c Hc).
Qed.

Lemma contributors_have_links (corpus : Corpus) (mentions : Dict.t pyset) :
  (forall q p,
      (exists contributors,
          Dict.get q mentions = Some contributors /\ In p contributors) <->
      (exists links, Dict.get p corpus = Some links /\ In q links)) ->
  forall q contributors p,
    Dict.get q mentions = Some contributors -> In p contributors ->
    exists links, Dict.get p corpus = Some links /\ links <> [].
Proof.
  intros Hrel q c p Hc Hp.
  destruct (proj1 (Hrel q p)) as (links & Hl & Hin); [eauto|].
  exists links. split; auto. intros ->. destruct Hin.
Qed.

Section ReachableFacts.
Variables (corpus : Corpus) (d : Q) (mentions : Dict.t pyset).
Variable st0 : IterState.
Hypothesis Hnd : NoDup (Dict.keys corpus).
Hypothesis Hstart : iterate_start corpus = Ok (mentions, st0).

Lemma start_nonempty : corpus <> [].
Proof.
  now destruct (iterate_start_facts _ _ _ Hnd Hstart).
Qed.

Lemma start_contrib :
  forall q contributors p,
    Dict.get q mentions = Some contributors -> In p contributors ->
    exists links, Dict.get p corpus = Some links /\ links <> [].
Proof.
  apply contributors_have_links.
  now destruct (iterate_start_facts _ _ _ Hnd Hstart) as (_ & _ & _ & _ & _ & H).
Qed.

Lemma start_sets :
  forall q contributors,
    Dict.get q mentions = Some contributors -> contributors <> [].
Proof.
  now destruct (iterate_start_facts _ _ _ Hnd Hstart) as (_ & _ & _ & _ & H & _).
Qed.

(** Every state of the loop has a rank for each page of the corpus, and
    the variable left by the inner loop, once bound, is a page. *)
Lemma reaches_covers (st : IterState) :
  reaches corpus d mentions st0 st ->
  Dict.keys (page_ranks st) = Dict.keys corpus /\
  (0 <= current_count st)%Z /\
  (forall rp, reference_page st = Some rp -> In rp (Dict.keys corpus)).
Proof.
  intros Hr. induction Hr as [|st1 st2 Hr IH Hc Hstep].
  - destruct (iterate_start_facts _ _ _ Hnd Hstart)
      as (_ & Hkeys & Hcur & Href & _).
    split; [exact Hkeys|]. split; [lia|].
    intros rp Hrp. congruence.
  - destruct (page_at_total corpus (current_count st1) start_nonempty)
      as (q & Hq & _); [apply IH|].
    assert (Hok : Dict.mem q mentions = true \/ reference_page st1 <> None).
    { destruct (Dict.mem q mentions) eqn:Hmem; [now left|].
      destruct (reference_page st1) eqn:Hrp; [right; discriminate|].
      exfalso. unfold iterate_step in Hstep. rewrite Hq in Hstep.
      cbn [bind] in Hstep.
      rewrite (references_of_unbound corpus d mentions st1 q Hmem Hrp)
        in Hstep.
      discriminate. }
    destruct (iterate_step_total corpus d mentions start_nonempty
                start_contrib start_sets st1 q IH Hq Hok)
      as (st' & Hstep' & Hcov & _).
    rewrite Hstep in Hstep'. injection Hstep' as <-. exact Hcov.
Qed.
End ReachableFacts.

(** X11: the update of a page with inbound links is the PageRank
    recurrence.  In every state the loop reaches, when the page [q] to
    update has contributors, the update succeeds and stores
    [(1-d)/N + d * sum of rank(p) / len(corpus[p])] over the pages [p]
    that link to [q], with the ranks of the current state; every such
    [p] has at least one link, so the fallback divisor [page_count] is
    never used in the sum. *)
Theorem update_is_pagerank_recurrence
        (corpus : Corpus) (d : Q) (mentions : Dict.t pyset)
        (st0 st : IterState) (q : string) (contributors : pyset) :
  NoDup (Dict.keys corpus) ->
  iterate_start corpus = Ok (mentions, st0) ->
  reaches corpus d mentions st0 st ->
  page_at (Dict.keys corpus) (Dict.len corpus) (current_count st) = Ok q ->
  Dict.get q mentions = Some contributors ->
  exists st' new,
    iterate_step corpus d mentions st = Ok st' /\
    Dict.get q (page_ranks st') = Some new /\
    new == (1 - d) / inject_Z (Dict.len corpus)
           + d * Qsum (map (fun p => value_of (page_ranks st) p
                                     / inject_Z (out_degree corpus p))
                           contributors) /\
    (forall p, In p contributors <->
               exists links, Dict.get p corpus = Some links /\ In q links) /\
    (forall p, In p contributors -> (1 <= out_degree corpus p)%Z).
Proof.
  intros Hnd Hstart Hr Hq Hc.
  pose proof (start_nonempty corpus mentions st0 Hnd Hstart) as Hne.
  pose proof (start_contrib corpus mentions st0 Hnd Hstart) as Hcontrib.
  pose proof (start_sets corpus mentions st0 Hnd Hstart) as Hsets.
  pose proof (reaches_covers corpus d mentions st0 Hnd Hstart st Hr) as Hcov.
  assert (Hmem : Dict.mem q mentions = true).
  { apply mem_true_iff. eapply get_Some_in; eauto. }
  destruct (iterate_step_total corpus d mentions Hne Hcontrib Hsets st q
              Hcov Hq (or_introl Hmem)) as (st' & Hstep & _ & _).
  destruct (references_of_inbound corpus d mentions Hcontrib Hsets st q
              contributors (proj1 Hcov) Hc) as (s & last & Hrefs & _ & Hsum).
  destruct (iterate_step_inv _ _ _ _ _ Hstep)
    as (q' & refs & old & Hq' & Hrefs' & _ & _ & Hst').
  rewrite Hq in Hq'. injection Hq' as <-.
  rewrite Hrefs in Hrefs'. injection Hrefs' as <-.
  exists st'. eexists. split; [exact Hstep|]. split; [|split; [|split]].
  - rewrite Hst'. cbn [page_ranks]. apply get_set_same.
  - cbn [fst]. rewrite Hsum. reflexivity.
  - intros p.
    destruct (iterate_start_facts _ _ _ Hnd Hstart)
      as (_ & _ & _ & _ & _ & Hrel).
    rewrite <- Hrel. split.
    + intros Hp. eauto.
    + intros (c & Hc' & Hp). rewrite Hc in Hc'. now injection Hc' as <-.
  - intros p Hp. destruct (Hcontrib q contributors p Hc Hp) as (l & Hl & Hnl).
    unfold out_degree, set_len. rewrite Hl.
    destruct l; simpl; [congruence | lia].
Qed.

Lemma NoDup_keys_ab : NoDup (Dict.keys corpus_ab).
Proof.
  repeat constructor; simpl; intuition discriminate.
Qed.

Lemma update_is_pagerank_recurrence_witness :
  exists mentions st0 st' new,
    iterate_start corpus_ab = Ok (mentions, st0) /\
    Dict.get "A" mentions = Some ["B"] /\
    iterate_step corpus_ab (85 # 100) mentions st0 = Ok st' /\
    Dict.get "A" (page_ranks st') = Some new /\
    new == (1 - (85 # 100)) / inject_Z (Dict.len corpus_ab)
           + (85 # 100)
             * Qsum (map (fun p => value_of (page_ranks st0) p
                                   / inject_Z (out_degree corpus_ab p))
                         ["B"]) /\
    (forall p, In p ["B"] <->
               exists links, Dict.get p corpus_ab = Some links /\
                             In "A" links) /\
    (forall p, In p ["B"] -> (1 <= out_degree corpus_ab p)%Z).
Proof.
  destruct (update_is_pagerank_recurrence corpus_ab (85 # 100)
              [("B", ["A"]); ("A", ["B"])]
              {| page_ranks := [("A", 1 / inject_Z 2); ("B", 1 / inject_Z 2)];
                 current_count := 0;
                 convergence_count := 0;
                 reference_page := None |}
              {| page_ranks := [("A", 1 / inject_Z 2); ("B", 1 / inject_Z 2)];
                 current_count := 0;
                 convergence_count := 0;
                 reference_page := None |}
              "A" ["B"] NoDup_keys_ab eq_refl (reaches_here _ _ _ _)
              eq_refl eq_refl)
    as (st' & new & H).
  eexists. eexists. exists st', new.
  split; [reflexivity|]. split; [reflexivity|]. exact H.
Defined.

(** ** When the solver raises *)

Lemma inbound_iff_mem (corpus : Corpus) (mentions : Dict.t pyset)
      (q : string) :
  NoDup (Dict.keys corpus) ->
  (forall q contributors,
      Dict.get q mentions = Some contributors -> contributors <> []) ->
  (forall q p,
      (exists contributors,
          Dict.get q mentions = Some contributors /\ In p contributors) <->
      (exists links, Dict.get p corpus = Some links /\ In q links)) ->
  Dict.mem q mentions = existsb (fun kv => in_set q (snd kv)) corpus.
Proof.
  intros Hnd Hsets Hrel.
  destruct (existsb (fun kv => in_set q (snd kv)) corpus) eqn:E.
  - apply existsb_exists in E as ([p links] & Hin & Hq).
    apply in_set_true_iff in Hq. simpl in Hq.
    destruct (proj2 (Hrel q p)) as (c & Hc & _).
    { exists links. split; auto. now apply in_get_NoDup. }
    apply mem_true_iff. eapply get_Some_in; eauto.
  - apply mem_false_iff. intros Hin.
    apply in_keys_get in Hin as [c Hc].
    destruct c as [|p c]; [now apply (Hsets q [] Hc)|].
    destruct (proj1 (Hrel q p)) as (links & Hl & Hq).
    { exists (p :: c). split; [exact Hc | now left]. }
    assert (Ht : existsb (fun kv => in_set q (snd kv)) corpus = true).
    { apply existsb_exists. exists (p, links). split.
      - now apply get_in_corpus.
      - now apply in_set_true_iff. }
    congruence.
Qed.

(** The solver on a corpus whose first page is [first]. *)
Lemma iterate_pagerank_first_page (corpus : Corpus) (d : Q) (first : string) :
  NoDup (Dict.keys corpus) ->
  hd_error (Dict.keys corpus) = Some first ->
  if existsb (fun kv => in_set first (snd kv)) corpus
  then
    forall fuel,
      iterate_pagerank fuel corpus d = None \/
      exists r,
        iterate_pagerank fuel corpus d = Some (Ok r) /\
        Dict.keys r = Dict.keys corpus
  else
    forall fuel,
      iterate_pagerank (S fuel) corpus d = Some (Raise UnboundLocalError).
Proof.
  intros Hnd Hhd.
  assert (Hne : corpus <> []) by (intros ->; discriminate).
  assert (HN : (0 < Dict.len corpus)%Z).
  { unfold Dict.len. destruct corpus; simpl; [congruence | lia]. }
  destruct (iterate_setup_spec corpus (1 / inject_Z (Dict.len corpus)) Hnd)
    as (ranks & mentions & Hrun & Hranks & _ & Hsets & Hrel).
  set (st0 := {| page_ranks := ranks; current_count := 0;
                 convergence_count := 0; reference_page := None |}).
  assert (Hstart : iterate_start corpus = Ok (mentions, st0)).
  { unfold iterate_start. rewrite true_div_Ok by lia. cbn [bind].
    rewrite Hrun. reflexivity. }
  assert (Hsets' : forall q c, Dict.get q mentions = Some c -> c <> []).
  { intros q c Hc. now destruct (Hsets q c Hc). }
  pose proof (contributors_have_links corpus mentions Hrel) as Hcontrib.
  assert (Hfirst : page_at (Dict.keys corpus) (Dict.len corpus)
                           (current_count st0) = Ok first).
  { unfold page_at, list_index. cbn [current_count st0].
    rewrite Z.mod_0_l by lia. simpl.
    destruct (Dict.keys corpus); [discriminate|].
    simpl in *. now injection Hhd as ->. }
  assert (Hconv : converged corpus st0 = false).
  { unfold converged. cbn [convergence_count st0]. apply Z.leb_gt. lia. }
  assert (Hcov : Dict.keys (page_ranks st0) = Dict.keys corpus /\
                 (0 <= current_count st0)%Z /\
                 (forall rp, reference_page st0 = Some rp ->
                             In rp (Dict.keys corpus))).
  { cbn [page_ranks current_count reference_page st0].
    split; [rewrite Hranks; apply keys_tabulate|].
    split; [lia | discriminate]. }
  rewrite <- (inbound_iff_mem corpus mentions first Hnd Hsets' Hrel).
  unfold iterate_pagerank. rewrite Hstart.
  destruct (Dict.mem first mentions) eqn:Hmem.
  - intros fuel. destruct fuel as [|fuel]; cbn [iterate_loop]; rewrite Hconv;
      [now left|].
    destruct (iterate_step_total corpus d mentions Hne Hcontrib Hsets'
                st0 first Hcov Hfirst (or_introl Hmem))
      as (st1 & Hstep & Hcov1 & Href1).
    rewrite Hstep.
    apply (iterate_loop_safe corpus d mentions Hne Hcontrib Hsets'); auto.
  - intros fuel. cbn [iterate_loop]. rewrite Hconv.
    unfold iterate_step. rewrite Hfirst. cbn [bind].
    rewrite (references_of_unbound corpus d mentions st0 first Hmem eq_refl).
    reflexivity.
Qed.

(** X12: when [iterate_pagerank] raises.  The call raises exactly when
    no page links to the first page of the corpus: the first update
    then reads the unbound [reference_page] and the exception is
    [UnboundLocalError].  When some page links to the first page, no
    call raises, however many iterations are allowed, and a call that
    returns gives a rank to every page of the corpus, in the order of
    the corpus. *)
Theorem iterate_pagerank_errors
        (first : string) (links0 : pyset) (rest : Corpus) (d : Q) :
  NoDup (Dict.keys ((first, links0) :: rest)) ->
  if existsb (fun kv => in_set first (snd kv)) ((first, links0) :: rest)
  then
    forall fuel,
      iterate_pagerank fuel ((first, links0) :: rest) d = None \/
      exists r,
        iterate_pagerank fuel ((first, links0) :: rest) d = Some (Ok r) /\
        Dict.keys r = Dict.keys ((first, links0) :: rest)
  else
    forall fuel,
      iterate_pagerank (S fuel) ((first, links0) :: rest) d
      = Some (Raise UnboundLocalError).
Proof.
  intros Hnd.
  assert (Hhd : hd_error (Dict.keys ((first, links0) :: rest)) = Some first)
    by reflexivity.
  exact (iterate_pagerank_first_page ((first, links0) :: rest) d first
           Hnd Hhd).
Qed.

Lemma iterate_pagerank_errors_witness :
  if existsb (fun kv => in_set "A" (snd kv))
             (("A", ["B"; "C"]) :: [("B", ["C"]); ("C", ["B"])])
  then
    forall fuel,
      iterate_pagerank fuel (("A", ["B"; "C"]) :: [("B", ["C"]); ("C", ["B"])])
                       (85 # 100) = None \/
      exists r,
        iterate_pagerank fuel
          (("A", ["B"; "C"]) :: [("B", ["C"]); ("C", ["B"])]) (85 # 100)
        = Some (Ok r) /\
        Dict.keys r =
        Dict.keys (("A", ["B"; "C"]) :: [("B", ["C"]); ("C", ["B"])])
  else
    forall fuel,
      iterate_pagerank (S fuel)
        (("A", ["B"; "C"]) :: [("B", ["C"]); ("C", ["B"])]) (85 # 100)
      = Some (Raise UnboundLocalError).
Proof.
  exact (iterate_pagerank_errors "A" ["B"; "C"] [("B", ["C"]); ("C", ["B"])]
           (85 # 100) NoDup_keys_abc).
Defined.

(** ** Graphs on which the uniform ranks are stationary *)

Lemma Qsum_Permutation (l l' : list Q) :
  Permutation l l' -> Qsum l == Qsum l'.
Proof.
  intros H. induction H; simpl.
  - reflexivity.
  - fold (Qsum l). fold (Qsum l'). now rewrite IHPermutation.
  - fold (Qsum l). ring.
  - now rewrite IHPermutation1.
Qed.

Lemma Qsum_indicator (b : string * pyset -> bool) (f : string * pyset -> Q)
      (corpus : Corpus) :
  Qsum (map (fun kv => if b kv then f kv else 0) corpus) ==
  Qsum (map f (filter b corpus)).
Proof.
  induction corpus as [|kv corpus IH]; simpl; [reflexivity|].
  fold (Qsum (map (fun kv => if b kv then f kv else 0) corpus)).
  destruct (b kv); simpl.
  - fold (Qsum (map f (filter b corpus))). now rewrite IH.
  - rewrite IH. ring.
Qed.

Lemma NoDup_keys_filter {V : Type} (b : string * V -> bool) (d : Dict.t V) :
  NoDup (Dict.keys d) -> NoDup (Dict.keys (filter b d)).
Proof.
  induction d as [|kv d IH]; simpl; intros Hnd; [constructor|].
  inversion Hnd as [|? ? Hk Hnd']; subst.
  destruct (b kv); simpl; auto.
  constructor; auto.
  intros Hin. apply Hk. unfold Dict.keys in *.
  apply in_map_iff in Hin as (x & Hx & Hin).
  apply filter_In in Hin as [Hin _].
  apply in_map_iff. eauto.
Qed.

(** The sum over the contributors of [q] is the sum over the pages of
    the corpus that link to [q]. *)
Lemma Qsum_contributors (corpus : Corpus) (q : string)
      (contributors : pyset) (f : string -> Q) :
  NoDup (Dict.keys corpus) ->
  NoDup contributors ->
  (forall p, In p contributors <->
             exists links, Dict.get p corpus = Some links /\ In q links) ->
  Qsum (map f contributors) ==
  Qsum (map (fun kv => if in_set q (snd kv) then f (fst kv) else 0) corpus).
Proof.
  intros Hnd Hndc Hrel.
  rewrite (Qsum_indicator (fun kv => in_set q (snd kv)) (fun kv => f (fst kv))).
  rewrite <- (map_map fst f).
  apply Qsum_Permutation, Permutation_map, NoDup_Permutation; auto.
  - apply (NoDup_keys_filter (fun kv => in_set q (snd kv)) corpus Hnd).
  - intros p. rewrite Hrel, in_map_iff. split.
    + intros (links & Hl & Hq). exists (p, links). split; auto.
      apply filter_In. split; [now apply get_in_corpus|].
      now apply in_set_true_iff.
    + intros ([p' links] & <- & Hin). apply filter_In in Hin as [Hin Hq].
      exists links. split; [now apply in_get_NoDup|].
      now apply in_set_true_iff.
Qed.

Lemma small_change (old new x : Q) :
  old == x -> new == x -> Qle_bool (Qabs (old - new)) threshold = true.
Proof.
  intros Ho Hn. apply Qle_bool_iff.
  assert (H : old - new == 0) by (rewrite Ho, Hn; ring).
  rewrite H. discriminate.
Qed.

Section Stationary.
Variables (corpus : Corpus) (d : Q).
Hypothesis Hnd : NoDup (Dict.keys corpus).
Hypothesis Hne : corpus <> [].
Hypothesis Hbalanced :
  forall q, In q (Dict.keys corpus) -> inbound_weight corpus q == 1.

Let N : Z := Dict.len corpus.
Let uniform : Q := 1 / inject_Z N.

(** Every page has a contributor. *)
Lemma balanced_inbound (q : string) :
  In q (Dict.keys corpus) ->
  existsb (fun kv => in_set q (snd kv)) corpus = true.
Proof.
  intros Hq. destruct (existsb (fun kv => in_set q (snd kv)) corpus) eqn:E;
    auto.
  exfalso. specialize (Hbalanced q Hq). unfold inbound_weight in Hbalanced.
  rewrite (Qsum_indicator (fun kv => in_set q (snd kv))
             (fun kv => 1 / inject_Z (set_len (snd kv)))) in Hbalanced.
  replace (filter (fun kv => in_set q (snd kv)) corpus) with (@nil (string * pyset))
    in Hbalanced.
  - simpl in Hbalanced. discriminate Hbalanced.
  - symmetry. clear Hbalanced Hq Hnd Hne.
    induction corpus as [|kv c IH]; simpl in *; auto.
    apply orb_false_iff in E as [E1 E2]. rewrite E1. auto.
Qed.

Lemma stationary_sum (ranks : Dict.t Q) (q : string) (contributors : pyset) :
  NoDup contributors ->
  (forall p, In p contributors <->
             exists links, Dict.get p corpus = Some links /\ In q links) ->
  (forall p, In p (Dict.keys corpus) -> value_of ranks p == uniform) ->
  In q (Dict.keys corpus) ->
  Qsum (map (fun p => value_of ranks p / inject_Z (out_degree corpus p))
            contributors) == uniform.
Proof.
  intros Hndc Hrel Hval Hq.
  assert (Hext : Qsum (map (fun p => value_of ranks p
                                     / inject_Z (out_degree corpus p))
                           contributors)
                 == Qsum (map (fun p => uniform
                                        * (1 / inject_Z (out_degree corpus p)))
                              contributors)).
  { assert (Hin : forall p, In p contributors -> In p (Dict.keys corpus)).
    { intros p Hp. apply Hrel in Hp as (l & Hl & _).
      eapply get_Some_in; eauto. }
    clear Hrel Hndc. induction contributors as [|p ps IH]; simpl.
    - reflexivity.
    - fold (Qsum (map (fun p => value_of ranks p
                                / inject_Z (out_degree corpus p)) ps)).
      fold (Qsum (map (fun p => uniform
                                * (1 / inject_Z (out_degree corpus p))) ps)).
      rewrite IH by (intros x Hx; apply Hin; now right).
      rewrite (Hval p) by (apply Hin; now left).
      unfold Qdiv. ring. }
  rewrite Hext, Qsum_scale.
  rewrite (Qsum_contributors corpus q contributors
             (fun p => 1 / inject_Z (out_degree corpus p)) Hnd Hndc Hrel).
  assert (Hw : Qsum (map (fun kv => if in_set q (snd kv)
                                    then 1 / inject_Z (out_degree corpus (fst kv))
                                    else 0) corpus)
               = inbound_weight corpus q).
  { unfold inbound_weight. f_equal. apply map_ext_in.
    intros [p links] Hin. simpl.
    unfold out_degree. now rewrite (in_get_NoDup p links corpus Hnd Hin). }
  rewrite Hw, (Hbalanced q Hq). ring.
Qed.
End Stationary.

Section StationaryRun.
Variables (corpus : Corpus) (d : Q) (mentions : Dict.t pyset).
Hypothesis Hnd : NoDup (Dict.keys corpus).
Hypothesis Hne : corpus <> [].
Hypothesis Hbalanced :
  forall q, In q (Dict.keys corpus) -> inbound_weight corpus q == 1.
Hypothesis Hsets :
  forall q contributors,
    Dict.get q mentions = Some contributors ->
    NoDup contributors /\ contributors <> [].
Hypothesis Hrel :
  forall q p,
    (exists contributors,
        Dict.get q mentions = Some contributors /\ In p contributors) <->
    (exists links, Dict.get p corpus = Some links /\ In q links).

Let uniform : Q := 1 / inject_Z (Dict.len corpus).

(** The state after [k] updates that changed nothing. *)
Let steady (st : IterState) (k : nat) : Prop :=
  Dict.keys (page_ranks st) = Dict.keys corpus /\
  current_count st = Z.of_nat k /\
  convergence_count st = Z.of_nat k /\
  (forall p, In p (Dict.keys corpus) ->
             value_of (page_ranks st) p == uniform) /\
  (forall rp, reference_page st = Some rp -> In rp (Dict.keys corpus)).

Lemma steady_step (st : IterState) (k : nat) :
  steady st k ->
  exists st', iterate_step corpus d mentions st = Ok st' /\ steady st' (S k).
Proof.
  intros (Hkeys & Hcount & Hcc & Hval & Href).
  assert (Hsets' : forall q c, Dict.get q mentions = Some c -> c <> []).
  { intros q c Hc. now destruct (Hsets q c Hc). }
  pose proof (contributors_have_links corpus mentions Hrel) as Hcontrib.
  assert (HN : (0 < Dict.len corpus)%Z).
  { unfold Dict.len. destruct corpus; simpl; [congruence | lia]. }
  assert (HN' : ~ inject_Z (Dict.len corpus) == 0)
    by (apply inject_Z_nonzero; lia).
  destruct (page_at_total corpus (current_count st) Hne)
    as (q & Hq & Hin); [lia|].
  assert (Hmem : Dict.mem q mentions = true).
  { rewrite (inbound_iff_mem corpus mentions q Hnd Hsets' Hrel).
    now apply balanced_inbound. }
  destruct (iterate_step_total corpus d mentions Hne Hcontrib Hsets' st q)
    as (st' & Hstep & (Hkeys' & _ & Href') & _); auto.
  { split; [exact Hkeys|]. split; [lia | exact Href]. }
  exists st'. split; [exact Hstep|].
  pose proof (proj1 (mem_true_iff q mentions) Hmem) as Hinm.
  apply in_keys_get in Hinm as [c Hc].
  destruct (references_of_inbound corpus d mentions Hcontrib Hsets' st q c
              Hkeys Hc) as (s & last & Hrefs & _ & Hsum).
  destruct (iterate_step_inv _ _ _ _ _ Hstep)
    as (q' & refs & old & Hq' & Hrefs' & Hold & _ & Hst').
  rewrite Hq in Hq'. injection Hq' as <-.
  rewrite Hrefs in Hrefs'. injection Hrefs' as <-. cbn [fst snd] in Hst'.
  assert (Hs : s == d * uniform).
  { rewrite Hsum.
    rewrite (stationary_sum corpus Hnd Hbalanced (page_ranks st) q c);
      auto; try reflexivity.
    - now destruct (Hsets q c Hc).
    - intros p. rewrite <- Hrel. split; [eauto|].
      intros (c' & Hc' & Hp). rewrite Hc in Hc'. now injection Hc' as <-. }
  assert (Hnew : (1 - d) / inject_Z (Dict.len corpus) + s == uniform).
  { rewrite Hs. unfold uniform. field. exact HN'. }
  assert (Hold' : old == uniform).
  { rewrite <- (Hval q Hin). unfold value_of. now rewrite Hold. }
  split; [exact Hkeys'|]. rewrite Hst'.
  cbn [page_ranks current_count convergence_count reference_page].
  split; [lia|]. split; [|split].
  - rewrite (small_change old _ uniform Hold' Hnew). lia.
  - intros p Hp. unfold value_of.
    destruct (string_dec p q) as [->|Hpq].
    + rewrite get_set_same. exact Hnew.
    + rewrite get_set_other by auto. apply (Hval p Hp).
  - rewrite Hst' in Href'. exact Href'.
Qed.

Lemma steady_converged (st : IterState) (k : nat) :
  steady st k ->
  converged corpus st = negb (k <? length corpus)%nat.
Proof.
  intros (_ & _ & Hcc & _). unfold converged, Dict.len. rewrite Hcc.
  destruct (k <? length corpus)%nat eqn:E; simpl.
  - apply Nat.ltb_lt in E. apply Z.leb_gt. lia.
  - apply Nat.ltb_ge in E. apply Z.leb_le. lia.
Qed.

Lemma steady_run (m : nat) :
  forall k st,
    (k + m = length corpus)%nat -> steady st k ->
    exists r,
      iterate_loop m corpus d mentions st = Some (Ok r) /\
      Dict.keys r = Dict.keys corpus /\
      forall p, In p (Dict.keys corpus) -> value_of r p == uniform.
Proof.
  induction m as [|m IH]; intros k st Hk Hst.
  - exists (page_ranks st). simpl. rewrite (steady_converged st k Hst).
    replace (k <? length corpus)%nat with false
      by (symmetry; apply Nat.ltb_ge; lia).
    simpl. split; auto. split; apply Hst.
  - simpl. rewrite (steady_converged st k Hst).
    replace (k <? length corpus)%nat with true
      by (symmetry; apply Nat.ltb_lt; lia).
    simpl. destruct (steady_step st k Hst) as (st' & Hstep & Hst').
    rewrite Hstep. apply (IH (S k)); auto. lia.
Qed.

Lemma steady_short (fuel : nat) :
  forall m k st,
    (k + m = length corpus)%nat -> steady st k -> (fuel < m)%nat ->
    iterate_loop fuel corpus d mentions st = None.
Proof.
  induction fuel as [|fuel IH]; intros m k st Hk Hst Hlt; simpl;
    rewrite (steady_converged st k Hst);
    replace (k <? length corpus)%nat with true
      by (symmetry; apply Nat.ltb_lt; lia); simpl; auto.
  destruct (steady_step st k Hst) as (st' & Hstep & Hst').
  rewrite Hstep. apply (IH (pred m) (S k)); auto; lia.
Qed.
End StationaryRun.

(** X13: a case in which the solver provably ends.  On a graph where
    the uniform ranks are stationary (for every page, the values
    [1 / len(corpus[p])] of the pages [p] linking to it sum to 1, as on
    a cycle or a complete graph), for every damping factor the loop
    ends after exactly [N] updates, none of which changes a rank, and
    returns [1/N] for every page. *)
Theorem uniform_stationary_terminates (corpus : Corpus) (d : Q) :
  NoDup (Dict.keys corpus) ->
  corpus <> [] ->
  (forall q, In q (Dict.keys corpus) -> inbound_weight corpus q == 1) ->
  (forall fuel, (fuel < length corpus)%nat ->
                iterate_pagerank fuel corpus d = None) /\
  exists r,
    iterate_pagerank (length corpus) corpus d = Some (Ok r) /\
    Dict.keys r = Dict.keys corpus /\
    forall q v, Dict.get q r = Some v ->
                v == 1 / inject_Z (Dict.len corpus).
Proof.
  intros Hnd Hne Hbalanced.
  assert (HN : (0 < Dict.len corpus)%Z).
  { unfold Dict.len. destruct corpus; simpl; [congruence | lia]. }
  destruct (iterate_setup_spec corpus (1 / inject_Z (Dict.len corpus)) Hnd)
    as (ranks & mentions & Hrun & Hranks & _ & Hsets & Hrel).
  set (st0 := {| page_ranks := ranks; current_count := 0;
                 convergence_count := 0; reference_page := None |}).
  assert (Hstart : iterate_start corpus = Ok (mentions, st0)).
  { unfold iterate_start. rewrite true_div_Ok by lia. cbn [bind].
    rewrite Hrun. reflexivity. }
  assert (Hst0 : Dict.keys (page_ranks st0) = Dict.keys corpus /\
                 current_count st0 = Z.of_nat 0 /\
                 convergence_count st0 = Z.of_nat 0 /\
                 (forall p, In p (Dict.keys corpus) ->
                            value_of (page_ranks st0) p
                            == 1 / inject_Z (Dict.len corpus)) /\
                 (forall rp, reference_page st0 = Some rp ->
                             In rp (Dict.keys corpus))).
  { cbn [page_ranks current_count convergence_count reference_page st0].
    split; [rewrite Hranks; apply keys_tabulate|].
    split; [reflexivity|]. split; [reflexivity|]. split; [|discriminate].
    intros p Hp. unfold value_of. rewrite Hranks, get_tabulate by auto.
    reflexivity. }
  unfold iterate_pagerank. rewrite Hstart. split.
  - intros fuel Hlt.
    apply (steady_short corpus d mentions Hnd Hne Hbalanced Hsets Hrel
             fuel (length corpus) 0%nat st0); auto.
  - destruct (steady_run corpus d mentions Hnd Hne Hbalanced Hsets Hrel
                (length corpus) 0%nat st0) as (r & Hr & Hkeys & Hval); auto.
    exists r. split; [exact Hr|]. split; [exact Hkeys|].
    intros q v Hq. pose proof (get_Some_in _ _ _ Hq) as Hin.
    rewrite Hkeys in Hin. specialize (Hval q Hin).
    unfold value_of in Hval. now rewrite Hq in Hval.
Qed.

Lemma uniform_stationary_terminates_witness :
  (forall fuel, (fuel < length corpus_cycle)%nat ->
                iterate_pagerank fuel corpus_cycle (85 # 100) = None) /\
  exists r,
    iterate_pagerank (length corpus_cycle) corpus_cycle (85 # 100)
    = Some (Ok r) /\
    Dict.keys r = Dict.keys corpus_cycle /\
    forall q v, Dict.get q r = Some v ->
                v == 1 / inject_Z (Dict.len corpus_cycle).
Proof.
  assert (Hnd : NoDup (Dict.keys corpus_cycle))
    by (repeat constructor; simpl; intuition discriminate).
  assert (Hne : corpus_cycle <> []) by discriminate.
  assert (Hb : forall q, In q (Dict.keys corpus_cycle) ->
                         inbound_weight corpus_cycle q == 1).
  { intros q [<-|[<-|[<-|[]]]]; reflexivity. }
  exact (uniform_stationary_terminates corpus_cycle (85 # 100) Hnd Hne Hb).
Defined.

(** ** The update of a page without inbound links *)

(** X14: what the code does at a page without inbound links once
    [reference_page] is bound.  In every state the loop reaches, if no
    page links to the page [q] to update and [reference_page] holds
    [rp], the update succeeds, stores
    [(1-d)/N + d * rank(rp) / N] for [q] and leaves [reference_page]
    unchanged; [rp] is a page of the corpus. *)
Theorem update_without_inbound
        (corpus : Corpus) (d : Q) (mentions : Dict.t pyset)
        (st0 st : IterState) (q rp : string) :
  NoDup (Dict.keys corpus) ->
  iterate_start corpus = Ok (mentions, st0) ->
  reaches corpus d mentions st0 st ->
  page_at (Dict.keys corpus) (Dict.len corpus) (current_count st) = Ok q ->
  (forall p links, Dict.get p corpus = Some links -> ~ In q links) ->
  reference_page st = Some rp ->
  exists st' new,
    iterate_step corpus d mentions st = Ok st' /\
    Dict.get q (page_ranks st') = Some new /\
    new == (1 - d) / inject_Z (Dict.len corpus)
           + d * (value_of (page_ranks st) rp / inject_Z (Dict.len corpus)) /\
    reference_page st' = Some rp /\
    In rp (Dict.keys corpus).
Proof.
  intros Hnd Hstart Hr Hq Hnone Hrp.
  pose proof (start_nonempty corpus mentions st0 Hnd Hstart) as Hne.
  pose proof (start_contrib corpus mentions st0 Hnd Hstart) as Hcontrib.
  pose proof (start_sets corpus mentions st0 Hnd Hstart) as Hsets.
  pose proof (reaches_covers corpus d mentions st0 Hnd Hstart st Hr)
    as (Hkeys & Hcount & Href).
  destruct (iterate_start_facts _ _ _ Hnd Hstart)
    as (_ & _ & _ & _ & _ & Hrel).
  assert (Hmem : Dict.mem q mentions = false).
  { apply mem_false_iff. intros Hin. apply in_keys_get in Hin as [c Hc].
    destruct c as [|p c]; [now apply (Hsets q [] Hc)|].
    destruct (proj1 (Hrel q p)) as (links & Hl & Hin).
    - exists (p :: c). split; [exact Hc | now left].
    - exact (Hnone p links Hl Hin). }
  pose proof (Href rp Hrp) as Hin.
  pose proof (references_of_no_inbound corpus d mentions Hne Hcontrib st q rp
                Hkeys Hmem Hrp Hin) as Hrefs.
  destruct (iterate_step_total corpus d mentions Hne Hcontrib Hsets st q)
    as (st' & Hstep & _ & _); auto.
  { right. congruence. }
  destruct (iterate_step_inv _ _ _ _ _ Hstep)
    as (q' & refs & old & Hq' & Hrefs' & _ & _ & Hst').
  rewrite Hq in Hq'. injection Hq' as <-.
  rewrite Hrefs in Hrefs'. injection Hrefs' as <-.
  exists st'. eexists. split; [exact Hstep|]. rewrite Hst'.
  cbn [page_ranks reference_page fst snd].
  split; [apply get_set_same|]. split; [ring|]. split; auto.
Qed.

Lemma update_without_inbound_witness :
  exists st' new,
    iterate_step corpus_second_orphan (85 # 100) (fst orphan_start)
                 orphan_after_one = Ok st' /\
    Dict.get "C" (page_ranks st') = Some new /\
    new == (1 - (85 # 100)) / inject_Z (Dict.len corpus_second_orphan)
           + (85 # 100)
             * (value_of (page_ranks orphan_after_one) "B"
                / inject_Z (Dict.len corpus_second_orphan)) /\
    reference_page st' = Some "B" /\
    In "B" (Dict.keys corpus_second_orphan).
Proof.
  assert (Hnd : NoDup (Dict.keys corpus_second_orphan))
    by (repeat constructor; simpl; intuition discriminate).
  assert (Hstart : iterate_start corpus_second_orphan
                   = Ok (fst orphan_start, snd orphan_start))
    by (vm_compute; reflexivity).
  assert (Hr : reaches corpus_second_orphan (85 # 100) (fst orphan_start)
                       (snd orphan_start) orphan_after_one).
  { eapply reaches_update; [apply reaches_here | |];
      vm_compute; reflexivity. }
  assert (Hq : page_at (Dict.keys corpus_second_orphan)
                       (Dict.len corpus_second_orphan)
                       (current_count orphan_after_one) = Ok "C")
    by (vm_compute; reflexivity).
  assert (Hnone : forall p links,
             Dict.get p corpus_second_orphan = Some links -> ~ In "C" links).
  { intros p links. simpl.
    destruct (String.eqb p "A"); [intros [= <-]; simpl; intuition discriminate|].
    destruct (String.eqb p "C"); [intros [= <-]; simpl; intuition discriminate|].
    destruct (String.eqb p "B"); [intros [= <-]; simpl; intuition discriminate|].
    discriminate. }
  assert (Hrp : reference_page orphan_after_one = Some "B")
    by (vm_compute; reflexivity).
  exact (update_without_inbound corpus_second_orphan (85 # 100)
           (fst orphan_start) (snd orphan_start) orphan_after_one "C" "B"
           Hnd Hstart Hr Hq Hnone Hrp).
Defined.

(** ** Ranks stay positive *)

Lemma Qsum_pos (f : string -> Q) (ps : list string) :
  ps <> [] -> (forall p, In p ps -> 0 < f p) -> 0 < Qsum (map f ps).
Proof.
  induction ps as [|p ps IH]; intros Hne Hpos; [congruence|].
  cbn [map Qsum fold_right]. fold (Qsum (map f ps)).
  pose proof (Hpos p (or_introl eq_refl)) as Hp.
  destruct ps as [|p' ps'].
  - simpl. lra.
  - assert (0 < Qsum (map f (p' :: ps'))).
    { apply IH; [discriminate|]. intros x Hx. apply Hpos. now right. }
    lra.
Qed.

Lemma iterate_start_ranks (corpus : Corpus) (mentions : Dict.t pyset)
      (st0 : IterState) :
  NoDup (Dict.keys corpus) ->
  iterate_start corpus = Ok (mentions, st0) ->
  page_ranks st0 =
  map (fun k => (k, 1 / inject_Z (Dict.len corpus))) (Dict.keys corpus).
Proof.
  intros Hnd Hstart. unfold iterate_start, true_div in Hstart.
  destruct (Qeq_bool (inject_Z (Dict.len corpus)) 0); [discriminate|].
  cbn [bind] in Hstart.
  destruct (iterate_setup_spec corpus (1 / inject_Z (Dict.len corpus)) Hnd)
    as (ranks & mentions' & Hrun & Hranks & _).
  rewrite Hrun in Hstart. cbn [bind fst snd] in Hstart.
  injection Hstart as <- <-. exact Hranks.
Qed.

(** A convex combination of a positive teleport share and a positive
    inbound share. *)
Lemma new_rank_positive (d t X s : Q) :
  0 <= d -> d <= 1 -> 0 < t -> 0 < X -> s == d * X ->
  0 < (1 - d) * t + s /\ (1 - d) * t <= (1 - d) * t + s.
Proof.
  intros Hd0 Hd1 Ht HX Hs. rewrite Hs.
  assert (H1 : 0 <= (1 - d) * t) by (apply Qmult_le_0_compat; lra).
  assert (H2 : 0 <= d * X) by (apply Qmult_le_0_compat; lra).
  split; [|lra].
  destruct (Qlt_le_dec d 1) as [Hlt|Hge].
  - assert (0 < (1 - d) * t) by (apply Qmult_lt_0_compat; lra). lra.
  - assert (0 < d * X) by (apply Qmult_lt_0_compat; lra). lra.
Qed.

Section ReachablePositive.
Variables (corpus : Corpus) (d : Q) (mentions : Dict.t pyset).
Variable st0 : IterState.
Hypothesis Hnd : NoDup (Dict.keys corpus).
Hypothesis Hstart : iterate_start corpus = Ok (mentions, st0).
Hypothesis Hd0 : 0 <= d.
Hypothesis Hd1 : d <= 1.

Let teleport : Q := (1 - d) / inject_Z (Dict.len corpus).

Lemma reaches_positive (st : IterState) :
  reaches corpus d mentions st0 st ->
  forall p v, Dict.get p (page_ranks st) = Some v -> 0 < v /\ teleport <= v.
Proof.
  pose proof (start_nonempty corpus mentions st0 Hnd Hstart) as Hne.
  pose proof (start_contrib corpus mentions st0 Hnd Hstart) as Hcontrib.
  pose proof (start_sets corpus mentions st0 Hnd Hstart) as Hsets.
  assert (HN : (0 < Dict.len corpus)%Z).
  { unfold Dict.len. destruct corpus; simpl; [congruence | lia]. }
  pose proof (Qinv_lt_0_compat _ (inject_Z_pos _ HN)) as Ht.
  intros Hr. induction Hr as [|st1 st2 Hr IH Hc Hstep]; intros p v Hp.
  - rewrite (iterate_start_ranks _ _ _ Hnd Hstart) in Hp.
    pose proof (get_Some_in _ _ _ Hp) as Hin.
    rewrite keys_tabulate in Hin. rewrite get_tabulate in Hp by auto.
    injection Hp as <-. unfold teleport, Qdiv.
    set (t := / inject_Z (Dict.len corpus)) in *.
    split; [lra|].
    assert (0 <= d * t) by (apply Qmult_le_0_compat; lra). lra.
  - pose proof (reaches_covers corpus d mentions st0 Hnd Hstart st1 Hr)
      as (Hkeys & Hcount & Href).
    destruct (iterate_step_inv _ _ _ _ _ Hstep)
      as (q & refs & old & Hq & Hrefs & Hold & _ & Hst2).
    rewrite Hst2 in Hp. cbn [page_ranks] in Hp.
    destruct (string_dec p q) as [->|Hpq];
      [|rewrite get_set_other in Hp by auto; exact (IH p v Hp)].
    rewrite get_set_same in Hp. injection Hp as <-.
    assert (Hval : forall x, In x (Dict.keys corpus) ->
                             0 < value_of (page_ranks st1) x).
    { intros x Hx. rewrite <- Hkeys in Hx.
      apply in_keys_get in Hx as [vx Hvx].
      unfold value_of. rewrite Hvx. now apply (IH x vx). }
    assert (HX : exists X, 0 < X /\ fst refs == d * X).
    { destruct (Dict.mem q mentions) eqn:Hmem.
      - pose proof (proj1 (mem_true_iff q mentions) Hmem) as Hinm.
        apply in_keys_get in Hinm as [c Hc'].
        destruct (references_of_inbound corpus d mentions Hcontrib Hsets
                    st1 q c Hkeys Hc') as (s & last & Hs & _ & Hsum).
        rewrite Hrefs in Hs. injection Hs as ->. cbn [fst].
        eexists. split; [|exact Hsum].
        apply Qsum_pos; [eapply Hsets; eauto|].
        intros x Hx.
        destruct (Hcontrib q c x Hc' Hx) as (l & Hl & Hnl).
        apply Qlt_shift_div_l.
        + apply inject_Z_pos. unfold out_degree, set_len. rewrite Hl.
          destruct l; simpl; [congruence | lia].
        + rewrite Qmult_0_l. apply Hval. eapply get_Some_in; eauto.
      - destruct (reference_page st1) as [rp|] eqn:Hrp.
        + rewrite (references_of_no_inbound corpus d mentions Hne Hcontrib
                     st1 q rp Hkeys Hmem Hrp (Href rp eq_refl)) in Hrefs.
          injection Hrefs as <-. cbn [fst].
          exists (value_of (page_ranks st1) rp / inject_Z (Dict.len corpus)).
          split; [|ring].
          apply Qlt_shift_div_l; [now apply inject_Z_pos|].
          rewrite Qmult_0_l. apply Hval. now apply Href.
        + rewrite (references_of_unbound corpus d mentions st1 q Hmem Hrp)
            in Hrefs. discriminate. }
    destruct HX as (X & HXpos & HXeq).
    unfold teleport, Qdiv.
    apply (new_rank_positive d (/ inject_Z (Dict.len corpus)) X (fst refs));
      auto.
Qed.
End ReachablePositive.

(** X15: for a damping factor in [0,1], every rank that
    [iterate_pagerank] returns is strictly positive and at least the
    teleport term [(1-d)/N], and there is one rank per page of the
    corpus. *)
Theorem iterate_ranks_positive
        (corpus : Corpus) (d : Q) (fuel : nat) (r : Dict.t Q) :
  NoDup (Dict.keys corpus) ->
  0 <= d -> d <= 1 ->
  iterate_pagerank fuel corpus d = Some (Ok r) ->
  Dict.keys r = Dict.keys corpus /\
  forall q v, Dict.get q r = Some v ->
              0 < v /\ (1 - d) / inject_Z (Dict.len corpus) <= v.
Proof.
  intros Hnd Hd0 Hd1 Hrun. unfold iterate_pagerank in Hrun.
  destruct (iterate_start corpus) as [[mentions st0]|e] eqn:Hstart;
    [|discriminate].
  destruct (iterate_loop_returns _ _ _ _ _ _ Hrun) as (st_end & Hr & _ & ->).
  split.
  - now destruct (reaches_covers corpus d mentions st0 Hnd Hstart st_end Hr).
  - intros q v Hq.
    exact (reaches_positive corpus d mentions st0 Hnd Hstart Hd0 Hd1
             st_end Hr q v Hq).
Qed.

Lemma iterate_ranks_positive_witness :
  Dict.keys ranks_ab = Dict.keys corpus_ab /\
  forall q v, Dict.get q ranks_ab = Some v ->
              0 < v /\ (1 - (85 # 100)) / inject_Z (Dict.len corpus_ab) <= v.
Proof.
  assert (Hd0 : 0 <= 85 # 100) by discriminate.
  assert (Hd1 : 85 # 100 <= 1) by discriminate.
  assert (Hrun : iterate_pagerank 2 corpus_ab (85 # 100) = Some (Ok ranks_ab))
    by (vm_compute; reflexivity).
  exact (iterate_ranks_positive corpus_ab (85 # 100) 2 ranks_ab
           NoDup_keys_ab Hd0 Hd1 Hrun).
Defined.

(** ** crawl followed by the solver *)

Lemma crawl_read_last (findall : string -> list string)
      (directory : list (string * string)) (e : string * string) :
  crawl_read findall (directory ++ [e]) =
  if negb (endswith (fst e) ".html") then crawl_read findall directory
  else Dict.set (fst e) (set_discard (fst e) (set_of_list (findall (snd e))))
                (crawl_read findall directory).
Proof.
  unfold crawl_read. rewrite fold_left_app. reflexivity.
Qed.

Lemma keys_crawl_read_filter (findall : string -> list string)
      (directory : list (string * string)) :
  NoDup (map fst directory) ->
  Dict.keys (crawl_read findall directory) =
  filter (fun k => endswith k ".html") (map fst directory).
Proof.
  induction directory as [|e directory IH] using rev_ind; [reflexivity|].
  rewrite map_app. simpl. intros Hnd.
  apply NoDup_remove in Hnd as [Hnd Hfresh]. rewrite app_nil_r in *.
  rewrite crawl_read_last, filter_app. simpl.
  destruct (endswith (fst e) ".html") eqn:E; simpl.
  - rewrite keys_set.
    replace (Dict.mem (fst e) (crawl_read findall directory)) with false.
    + now rewrite IH.
    + symmetry. apply mem_false_iff. rewrite IH by auto.
      intros H. apply filter_In in H as [H _]. contradiction.
  - rewrite app_nil_r. auto.
Qed.

Lemma crawl_entry_links (findall : string -> list string)
      (directory : list (string * string)) (corpus : Corpus)
      (filename contents : string) :
  NoDup (map fst directory) ->
  crawl findall directory = Ok corpus ->
  In (filename, contents) directory ->
  endswith filename ".html" = true ->
  exists links,
    Dict.get filename corpus = Some links /\
    forall link,
      In link links <->
      In link (findall contents) /\ link <> filename /\
      In link (Dict.keys corpus).
Proof.
  intros Hnd Hcrawl Hin Hhtml.
  destruct (crawl_eq findall directory) as (corpus' & Hrun & Hkeys & Hval).
  rewrite Hcrawl in Hrun. injection Hrun as <-.
  destruct (Hval filename) as (s & Hs & Hget).
  { rewrite Hkeys. apply in_keys_crawl_read. split; auto.
    change filename with (fst (filename, contents)). now apply in_map. }
  rewrite (get_crawl_read findall directory filename contents Hnd Hin Hhtml)
    in Hs.
  injection Hs as <-. eexists. split; [exact Hget|].
  intros link.
  rewrite in_set_of_list, filter_In, in_set_discard, in_set_of_list.
  rewrite mem_true_iff, Hkeys. tauto.
Qed.

(** X16: [crawl] followed by [iterate_pagerank], as in [main].  Let [f]
    be the first [.html] file in the order of the directory listing.
    If some other [.html] file of the directory has a link to [f], the
    solver never raises on the crawled corpus; otherwise it raises
    [UnboundLocalError] at its first update. *)
Theorem crawl_then_iterate
        (findall : string -> list string)
        (pre post : list (string * string)) (f contents : string) (d : Q) :
  NoDup (map fst (pre ++ (f, contents) :: post)) ->
  Forall (fun e => endswith (fst e) ".html" = false) pre ->
  endswith f ".html" = true ->
  exists corpus,
    crawl findall (pre ++ (f, contents) :: post) = Ok corpus /\
    hd_error (Dict.keys corpus) = Some f /\
    if existsb (fun e => endswith (fst e) ".html"
                         && negb (String.eqb (fst e) f)
                         && in_set f (findall (snd e)))
               (pre ++ (f, contents) :: post)
    then
      forall fuel,
        iterate_pagerank fuel corpus d = None \/
        exists r,
          iterate_pagerank fuel corpus d = Some (Ok r) /\
          Dict.keys r = Dict.keys corpus
    else
      forall fuel,
        iterate_pagerank (S fuel) corpus d = Some (Raise UnboundLocalError).
Proof.
  intros Hnd Hpre Hhtml.
  set (directory := pre ++ (f, contents) :: post) in *.
  destruct (crawl_eq findall directory) as (corpus & Hcrawl & Hkeys & _).
  destruct (crawl_entry findall directory corpus Hcrawl) as (Hndc & _ & _).
  assert (Hhd : hd_error (Dict.keys corpus) = Some f).
  { rewrite Hkeys, keys_crawl_read_filter by auto.
    unfold directory. rewrite map_app, filter_app. simpl. rewrite Hhtml.
    replace (filter (fun k => endswith k ".html") (map fst pre))
      with (@nil string); [reflexivity|].
    symmetry. clear -Hpre. induction Hpre as [|e pre He _ IH]; simpl; auto.
    now rewrite He. }
  assert (Hf : In f (Dict.keys corpus)).
  { destruct (Dict.keys corpus); [discriminate|].
    simpl in Hhd. injection Hhd as ->. now left. }
  exists corpus. split; [exact Hcrawl|]. split; [exact Hhd|].
  replace (existsb (fun e => endswith (fst e) ".html"
                             && negb (String.eqb (fst e) f)
                             && in_set f (findall (snd e))) directory)
    with (existsb (fun kv => in_set f (snd kv)) corpus).
  { exact (iterate_pagerank_first_page corpus d f Hndc Hhd). }
  apply eq_true_iff_eq. rewrite !existsb_exists. split.
  - intros ([g links] & Hin & Hl). simpl in Hl.
    apply in_set_true_iff in Hl.
    assert (Hg : In g (Dict.keys corpus))
      by (change g with (fst (g, links)); now apply in_map).
    rewrite Hkeys in Hg. apply in_keys_crawl_read in Hg as [Hg Hgh].
    apply in_map_iff in Hg as ([g' c] & Heq & Hgc). simpl in Heq. subst g'.
    destruct (crawl_entry_links findall directory corpus g c Hnd Hcrawl
                Hgc Hgh) as (links' & Hget & Hiff).
    rewrite (in_get_NoDup g links corpus Hndc Hin) in Hget.
    injection Hget as <-.
    destruct (proj1 (Hiff f) Hl) as (Hfind & Hne & _).
    exists (g, c). split; [exact Hgc|]. simpl.
    rewrite Hgh. simpl. apply andb_true_iff. split.
    + apply negb_true_iff, String.eqb_neq. congruence.
    + now apply in_set_true_iff.
  - intros ([g c] & Hgc & Hp). simpl in Hp.
    apply andb_true_iff in Hp. destruct Hp as [Hp Hfind].
    apply andb_true_iff in Hp. destruct Hp as [Hgh Hne].
    apply negb_true_iff in Hne. apply String.eqb_neq in Hne.
    apply in_set_true_iff in Hfind.
    destruct (crawl_entry_links findall directory corpus g c Hnd Hcrawl
                Hgc Hgh) as (links & Hget & Hiff).
    exists (g, links). split; [now apply get_in_corpus|]. simpl.
    apply in_set_true_iff, Hiff. repeat split; auto.
Qed.

Lemma crawl_then_iterate_witness :
  exists corpus,
    crawl (fun contents => [contents])
          ([("notes.txt", "a.html")]
             ++ ("a.html", "b.html") :: [("b.html", "a.html")])
    = Ok corpus /\
    hd_error (Dict.keys corpus) = Some "a.html" /\
    if existsb (fun e => endswith (fst e) ".html"
                         && negb (String.eqb (fst e) "a.html")
                         && in_set "a.html" [snd e])
               ([("notes.txt", "a.html")]
                  ++ ("a.html", "b.html") :: [("b.html", "a.html")])
    then
      forall fuel,
        iterate_pagerank fuel corpus (85 # 100) = None \/
        exists r,
          iterate_pagerank fuel corpus (85 # 100) = Some (Ok r) /\
          Dict.keys r = Dict.keys corpus
    else
      forall fuel,
        iterate_pagerank (S fuel) corpus (85 # 100)
        = Some (Raise UnboundLocalError).
Proof.
  assert (Hnd : NoDup (map fst ([("notes.txt", "a.html")]
                                  ++ ("a.html", "b.html")
                                  :: [("b.html", "a.html")])))
    by (repeat constructor; simpl; intuition discriminate).
  assert (Hpre : Forall (fun e => endswith (fst e) ".html" = false)
                        [("notes.txt", "a.html")])
    by (repeat constructor).
  exact (crawl_then_iterate (fun contents => [contents])
           [("notes.txt", "a.html")] [("b.html", "a.html")]
           "a.html" "b.html" (85 # 100) Hnd Hpre eq_refl).
Defined.

(** ** The selection loop in binary64 *)

Lemma wf_corpus_ten : wf_corpus corpus_ten.
Proof.
  split.
  - repeat constructor; simpl; intuition discriminate.
  - repeat apply Forall_cons; try apply Forall_nil; simpl;
      repeat constructor; simpl; tauto.
Qed.

Lemma closed_corpus_ten : closed_corpus corpus_ten.
Proof.
  unfold closed_corpus.
  repeat apply Forall_cons; try apply Forall_nil; simpl; intros q; tauto.
Qed.

(** C10: the code at the failing input.  On the ten-page graph, at the
    page [p0] without links, [transition_model] gives ten entries
    [1/10]; added in binary64 they reach [1 - 2^-53] and not 1.  For the
    draw [1 - 2^-53], which [random.random()] can return and which is in
    [0,1), the test [rgn < prob_count] fails at every entry: the loop
    ends without a [break] and the walk stays on [p0].  With the same
    numbers in exact arithmetic the loop chooses the last page. *)
Theorem selection_falls_through_binary64 :
  wf_corpus corpus_ten /\
  closed_corpus corpus_ten /\
  Dict.len corpus_ten = 10%Z /\
  Dict.get "p0" corpus_ten = Some [] /\
  PrimFloat.leb (float_of_int 0) largest_draw = true /\
  PrimFloat.ltb largest_draw (float_of_int 1) = true /\
  (exists dist st',
      transition_model_f corpus_ten "p0" damping_f = Ok dist /\
      Dict.keys dist = Dict.keys corpus_ten /\
      Forall (fun v => v = PrimFloat.div (float_of_int 1) (float_of_int 10))
             (Dict.values dist) /\
      fold_left PrimFloat.add (Dict.values dist) (float_of_int 0)
      = largest_draw /\
      select_next_f dist (Dict.keys dist) (float_of_int 0) largest_draw
      = Ok None /\
      sample_step_f corpus_ten damping_f largest_draw
        {| current_page_f := "p0";
           pages_probabilities_f := [];
           pages_count_f := [] |} = Ok st' /\
      current_page_f st' = "p0") /\
  (exists dist,
      transition_model corpus_ten "p0" (85 # 100) = Ok dist /\
      select_next dist (Dict.keys dist) 0
                  (9007199254740991 # 9007199254740992)
      = Ok (Some "p9")).
Proof.
  split; [apply wf_corpus_ten|]. split; [apply closed_corpus_ten|].
  split; [reflexivity|]. split; [reflexivity|].
  split; [vm_compute; reflexivity|]. split; [vm_compute; reflexivity|].
  split.
  - eexists. eexists.
    split; [vm_compute; reflexivity|].
    split; [reflexivity|].
    split; [repeat constructor|].
    split; [vm_compute; reflexivity|].
    split; [vm_compute; reflexivity|].
    split; [vm_compute; reflexivity|].
    reflexivity.
  - eexists. split; vm_compute; reflexivity.
Qed.
